(** * mnamer watch mode: the polling [Watcher] of [mnamer/watcher.py]

    A shallow embedding of [Watcher] (settle tracking, at-most-once dispatch,
    pruning of stale tracking entries and the clean-up sweep over processed
    source directories), together with the properties of the specification
    that concern it.

    Conventions.
    - A path is the list of its components below the filesystem root; there
      are no symbolic links, so [Path.resolve] is the identity.
    - The filesystem is a finite map from paths to nodes.  The processing
      callback is a function on the filesystem; its invocations are recorded
      in the world, as are the notices printed through [tty.msg].
    - A reading of [time.monotonic] is a finite double precision float;
      readings are subtracted as floats are, with rounding to nearest.
    - An operation that raises [OSError] returns [OSError].  A filesystem
      operation fails when its path is not what it needs (gone, or not a
      directory); permissions are not modelled, and the callback always
      returns. *)

From Stdlib Require Import QArith SpecFloat.
From stdpp Require Import ssreflect gmap strings list fin_maps.
Close Scope Q_scope.
Set Warnings "-clear-no-such-hyp".
#[local] Open Scope string_scope.
#[local] Open Scope list_scope.

(** ** Paths and file states *)

Abbreviation Path := (list string).

(** [Path.parent]: the parent of the root is the root. *)
Definition parent (p : Path) : Path := removelast p.

(** [Path.resolve], on link-free absolute paths. *)
Definition resolve (p : Path) : Path := p.

(** [p] is an entry of the directory [d]. *)
Definition is_child (d p : Path) : Prop := p ≠ [] ∧ parent p = d.

(** [p] lies strictly below [d]. *)
Definition is_below (d p : Path) : Prop := d `prefix_of` p ∧ p ≠ d.

#[export] Instance is_child_dec d p : Decision (is_child d p).
Proof. unfold is_child. apply _. Defined.

#[export] Instance is_below_dec d p : Decision (is_below d p).
Proof. unfold is_below. apply _. Defined.

(** What a crawl from [root] reaches: the whole tree below it when
    [recurse] is set, its entries otherwise. *)
Definition reaches (recurse : bool) (root p : Path) : Prop :=
  if recurse then is_below root p else is_child root p.

#[export] Instance reaches_dec recurse root p : Decision (reaches recurse root p).
Proof. destruct recurse; simpl; apply _. Defined.

(** [@dataclass(frozen=True) class FileState] *)
Module FileState.
Record t := mk { size : Z; mtime_ns : Z }.

#[export] Instance eq_dec : EqDecision t.
Proof. solve_decision. Defined.
End FileState.
Export (hints) FileState.

(** ** Floats and the readings of the monotonic clock

    A Python [float] is an IEEE 754 double: a [spec_float] of the standard
    library at precision 53 and maximal exponent 1024, whose operations
    round to nearest, ties to even. *)

Definition prec : Z := 53.
Definition emax : Z := 1024.

(** A reading of [time.monotonic]: a finite float, of the value
    [significand * 2 ^ exponent] with its sign.  Every finite double is
    such a reading. *)
Record Monotonic := { negative : bool; significand : N; exponent : Z }.

Definition to_float (t : Monotonic) : spec_float :=
  match significand t with
  | N0 => S754_zero (negative t)
  | Npos m => S754_finite (negative t) m (exponent t)
  end.

(** The float [now - first_seen]. *)
Definition elapsed (now first_seen : Monotonic) : spec_float :=
  SFsub prec emax (to_float now) (to_float first_seen).

(** [x < n] for a float [x] and an [int] [n]: Python compares the two
    values exactly; nan is below nothing. *)
Definition lt_int (x : spec_float) (n : Z) : bool :=
  match x with
  | S754_nan => false
  | S754_infinity s => s
  | S754_zero _ => (0 <? n)%Z
  | S754_finite s m e =>
    let v := cond_Zopp s (Z.pos m) in
    if (0 <=? e)%Z then (v * 2 ^ e <? n)%Z else (v <? n * 2 ^ (- e))%Z
  end.


(** ** The filesystem and the world around the watcher *)

Inductive Kind := RegularFile | Directory.

#[export] Instance Kind_eq_dec : EqDecision Kind.
Proof. solve_decision. Defined.

(** A node carries what [os.stat] reports about it. *)
Record Node := { kind : Kind; status : FileState.t }.

#[export] Instance Node_eq_dec : EqDecision Node.
Proof. solve_decision. Defined.

(** The result of a filesystem operation that may raise [OSError]. *)
Inductive outcome (A : Type) := Returns (a : A) | OSError.
Arguments Returns {A} a.
Arguments OSError {A}.

(** [Path.stat]: raises when the path is gone. *)
Definition stat (fs : gmap Path Node) (p : Path) : outcome FileState.t :=
  match fs !! p with
  | Some n => Returns (status n)
  | None => OSError
  end.

(** [Path.exists] *)
Definition path_exists (fs : gmap Path Node) (p : Path) : bool :=
  bool_decide (is_Some (fs !! p)).

Definition is_dir (fs : gmap Path Node) (p : Path) : bool :=
  bool_decide (kind <$> fs !! p = Some Directory).

(** [Path.iterdir]: the entries of a directory; raises on anything else. *)
Definition iterdir (fs : gmap Path Node) (d : Path) : outcome (list Path) :=
  if is_dir fs d
  then Returns (filter (is_child d) (map_to_list fs).*1)
  else OSError.

(** [Path.rmdir]: removes an empty directory; raises on anything else. *)
Definition rmdir (fs : gmap Path Node) (d : Path) : outcome (gmap Path Node) :=
  match iterdir fs d with
  | Returns [] => Returns (delete d fs)
  | _ => OSError
  end.

(** [shutil.rmtree]: removes a directory and all that is below it; raises
    when the path is not a directory. *)
Definition rmtree (fs : gmap Path Node) (d : Path) : outcome (gmap Path Node) :=
  if is_dir fs d
  then Returns (filter (λ kv, ¬ d `prefix_of` kv.1) fs)
  else OSError.

(** ** Settings, targets and notices *)

Module SettingStore.
Record t := mk {
  watch_enabled : bool;
  watch_input_directory : option Path;
  watch_poll_interval : Z;
  watch_settle_seconds : Z;
  watch_recursive : bool;
  ignore : list string;
  mask : list string;
  cleanup_empty_source_dirs : bool;
  cleanup_processed_source_dirs : bool;
}.
End SettingStore.

(** [Target(file_path, settings)] *)
Record Target := { source : Path; target_settings : SettingStore.t }.

(** The messages the watcher prints through [tty.msg]. *)
Inductive Notice :=
  | DeletedProcessed (directory : Path)
  | DeletedEmpty (directory : Path).

Record World := {
  files : gmap Path Node;
  calls : list Target;
  notices : list Notice;
}.

Definition with_files (fs : gmap Path Node) (e : World) : World :=
  {| files := fs; calls := calls e; notices := notices e |}.

(** [tty.msg(..., MessageType.ALERT)] *)
Definition msg (n : Notice) (e : World) : World :=
  {| files := files e; calls := calls e; notices := notices e ++ [n] |}.

(** ** Discovery and the watcher *)

(** The tests that [filter_blacklist] and [filter_containers] of
    [mnamer.utils] apply to one path (the module is not part of the sources
    at hand): whether the path matches one of the [ignore] patterns, and
    whether it matches the container [mask]. *)
Class Utils := {
  blacklisted : list string → Path → bool;
  contained : list string → Path → bool;
}.

Section Model.
Context `{Utils}.

(** Modelled from the spec: [crawl_in] of [mnamer.utils] is missing; it
    enumerates the files below the given directories, the whole tree when
    [recurse] is set and the direct entries otherwise. *)
Definition crawl_in (roots : list Path) (recurse : bool)
    (fs : gmap Path Node) : list Path :=
  (filter (λ kv, kind kv.2 = RegularFile ∧
                 Exists (λ root, reaches recurse root kv.1) roots)
          (map_to_list fs)).*1.

(** Modelled from the spec: [filter_blacklist] of [mnamer.utils] is
    missing; it drops the paths that match the blacklist. *)
Definition filter_blacklist (paths : list Path) (ignore : list string) : list Path :=
  filter (λ p, ¬ blacklisted ignore p) paths.

(** Modelled from the spec: [filter_containers] of [mnamer.utils] is
    missing; it keeps the paths that match the filename mask. *)
Definition filter_containers (paths : list Path) (mask : list string) : list Path :=
  filter (λ p, contained mask p) paths.

(** ** The watcher *)

Record Watcher := {
  settings : SettingStore.t;
  process_target : Target → gmap Path Node → bool * gmap Path Node;
  watch_directory : Path;
  poll_interval : Z;
  settle_seconds : Z;
  cleanup_empty_source_dirs : bool;
  cleanup_processed_source_dirs : bool;
  _pending : gmap Path (FileState.t * Monotonic);
  _attempted : gmap Path FileState.t;
  _processed_dirs : gset Path;
}.

Definition set_pending (m : gmap Path (FileState.t * Monotonic)) (w : Watcher)
    : Watcher :=
  {| settings := settings w; process_target := process_target w;
     watch_directory := watch_directory w; poll_interval := poll_interval w;
     settle_seconds := settle_seconds w;
     cleanup_empty_source_dirs := cleanup_empty_source_dirs w;
     cleanup_processed_source_dirs := cleanup_processed_source_dirs w;
     _pending := m; _attempted := _attempted w;
     _processed_dirs := _processed_dirs w |}.

Definition set_attempted (m : gmap Path FileState.t) (w : Watcher) : Watcher :=
  {| settings := settings w; process_target := process_target w;
     watch_directory := watch_directory w; poll_interval := poll_interval w;
     settle_seconds := settle_seconds w;
     cleanup_empty_source_dirs := cleanup_empty_source_dirs w;
     cleanup_processed_source_dirs := cleanup_processed_source_dirs w;
     _pending := _pending w; _attempted := m;
     _processed_dirs := _processed_dirs w |}.

Definition set_processed_dirs (s : gset Path) (w : Watcher) : Watcher :=
  {| settings := settings w; process_target := process_target w;
     watch_directory := watch_directory w; poll_interval := poll_interval w;
     settle_seconds := settle_seconds w;
     cleanup_empty_source_dirs := cleanup_empty_source_dirs w;
     cleanup_processed_source_dirs := cleanup_processed_source_dirs w;
     _pending := _pending w; _attempted := _attempted w;
     _processed_dirs := s |}.

(** [Watcher.__init__]: [None] is the [RuntimeError] raised when no watch
    directory is configured. *)
Definition init (s : SettingStore.t)
    (callback : Target → gmap Path Node → bool * gmap Path Node) : option Watcher :=
  match SettingStore.watch_input_directory s with
  | None => None
  | Some dir =>
    Some {| settings := s; process_target := callback;
            watch_directory := dir;
            poll_interval := Z.max 1 (SettingStore.watch_poll_interval s);
            settle_seconds := Z.max 0 (SettingStore.watch_settle_seconds s);
            cleanup_empty_source_dirs := SettingStore.cleanup_empty_source_dirs s;
            cleanup_processed_source_dirs :=
              SettingStore.cleanup_empty_source_dirs s
              && SettingStore.cleanup_processed_source_dirs s;
            _pending := ∅; _attempted := ∅; _processed_dirs := ∅ |}
  end.

(** [Watcher._iter_files] *)
Definition _iter_files (w : Watcher) (fs : gmap Path Node) : list Path :=
  let file_paths :=
    crawl_in [watch_directory w] (SettingStore.watch_recursive (settings w)) fs in
  let file_paths := filter_blacklist file_paths (SettingStore.ignore (settings w)) in
  let file_paths := filter_containers file_paths (SettingStore.mask (settings w)) in
  file_paths.

(** [Watcher._has_masked_files]: [any] of a list of paths is true as soon
    as the list is not empty. *)
Definition _has_masked_files (w : Watcher) (fs : gmap Path Node) (directory : Path) : bool :=
  let file_paths := crawl_in [directory] true fs in
  let file_paths := filter_containers file_paths (SettingStore.mask (settings w)) in
  match file_paths with [] => false | _ :: _ => true end.

(** *** One polling cycle *)

(** The state of a [run_once] call inside its loop: the watcher, the
    world, and the locals [processed] and [seen_paths]. *)
Record Cycle := {
  self : Watcher;
  world : World;
  processed : nat;
  seen_paths : gset Path;
}.

(** The invocation [self.process_target(target)]. *)
Definition dispatch (w : Watcher) (target : Target) (e : World) : World :=
  let '(_, fs) := process_target w target (files e) in
  {| files := fs; calls := calls e ++ [target]; notices := notices e |}.

(** Lines 68 to 73 of [run_once]: the time [first_seen] from which the
    file is taken to be in the state [state], and the watcher with its
    pending entry seeded when the file is new or has changed. *)
Definition first_sight (now : Monotonic) (w : Watcher) (file_path : Path)
    (state : FileState.t) : Monotonic * Watcher :=
  let previous := _pending w !! file_path in
  match previous with
  | Some (state0, first_seen0) =>
    if decide (state0 = state) then (first_seen0, w)
    else (now, set_pending (<[file_path := (state, now)]> (_pending w)) w)
  | None => (now, set_pending (<[file_path := (state, now)]> (_pending w)) w)
  end.

(** Lines 76 to 81 of [run_once]: the callback is invoked on a settled
    file, and the attempt is recorded. *)
Definition process (w : Watcher) (e : World) (file_path : Path)
    (state : FileState.t) : Watcher * World :=
  let target := {| source := file_path; target_settings := settings w |} in
  let e := dispatch w target e in
  let w :=
    if path_exists (files e) file_path then w
    else set_processed_dirs ({[parent file_path]} ∪ _processed_dirs w) w in
  let w := set_attempted (<[file_path := state]> (_attempted w)) w in
  let w := set_pending (delete file_path (_pending w)) w in
  (w, e).

(** The body of the [for file_path in self._iter_files()] loop. *)
Definition visit (now : Monotonic) (c : Cycle) (file_path : Path) : Cycle :=
  let seen := {[file_path]} ∪ seen_paths c in
  let w := self c in
  match stat (files (world c)) file_path with
  | OSError =>
    {| self := w; world := world c; processed := processed c; seen_paths := seen |}
  | Returns state =>
    if decide (_attempted w !! file_path = Some state)
    then {| self := w; world := world c;
            processed := processed c; seen_paths := seen |}
    else
      let '(first_seen, w) := first_sight now w file_path state in
      if lt_int (elapsed now first_seen) (settle_seconds w)
      then {| self := w; world := world c;
              processed := processed c; seen_paths := seen |}
      else
        let '(w, e) := process w (world c) file_path state in
        {| self := w; world := e;
           processed := S (processed c); seen_paths := seen |}
  end.

Definition run_loop (now : Monotonic) (file_paths : list Path) (c : Cycle) : Cycle :=
  foldl (visit now) c file_paths.

(** [Watcher._prune_missing] *)
Definition _prune_missing (seen : gset Path) (w : Watcher) : Watcher :=
  let w := set_pending (filter (λ kv, kv.1 ∈ seen) (_pending w)) w in
  set_attempted (filter (λ kv, kv.1 ∈ seen) (_attempted w)) w.

(** *** The clean-up sweep *)

(** [self._processed_dirs.discard(directory)] *)
Definition discard (directory : Path) (w : Watcher) : Watcher :=
  set_processed_dirs (_processed_dirs w ∖ {[directory]}) w.

(** The body of the [try] block of the sweep. *)
Definition remove_directory (w : Watcher) (e : World) (directory : Path) : outcome World :=
  if cleanup_processed_source_dirs w then
    match rmtree (files e) directory with
    | Returns fs => Returns (msg (DeletedProcessed directory) (with_files fs e))
    | OSError => OSError
    end
  else if cleanup_empty_source_dirs w then
    match iterdir (files e) directory with
    | Returns [] =>
      match rmdir (files e) directory with
      | Returns fs => Returns (msg (DeletedEmpty directory) (with_files fs e))
      | OSError => OSError
      end
    | Returns (_ :: _) => Returns e
    | OSError => OSError
    end
  else Returns e.

(** The body of the [for directory in tuple(self._processed_dirs)] loop. *)
Definition sweep (watch_root : Path) (st : Watcher * World) (directory : Path)
    : Watcher * World :=
  let '(w, e) := st in
  if negb (path_exists (files e) directory) then (discard directory w, e)
  else if decide (resolve directory = watch_root) then (w, e)
  else if _has_masked_files w (files e) directory then (w, e)
  else
    match remove_directory w e directory with
    | OSError => (w, e)
    | Returns e' => (discard directory w, e')
    end.

(** The sweep, visiting the candidates in the given order. *)
Definition cleanup_in_order (order : list Path) (w : Watcher) (e : World)
    : Watcher * World :=
  if negb (cleanup_empty_source_dirs w) && negb (cleanup_processed_source_dirs w)
  then (w, e)
  else
    let watch_root := resolve (watch_directory w) in
    foldl (sweep watch_root) (w, e) order.

(** [Watcher._cleanup_processed_directories]; [elements] plays the part of
    [tuple(self._processed_dirs)]. *)
Definition _cleanup_processed_directories (w : Watcher) (e : World) : Watcher * World :=
  cleanup_in_order (elements (_processed_dirs w)) w e.

(** The state of [run_once] when its loop begins. *)
Definition start (w : Watcher) (e : World) : Cycle :=
  {| self := w; world := e; processed := 0; seen_paths := ∅ |}.

(** The state of [run_once] when its loop is over. *)
Definition after_loop (now : Monotonic) (w : Watcher) (e : World) : Cycle :=
  run_loop now (_iter_files w (files e)) (start w e).

(** [Watcher.run_once], at the clock reading [now]: the number of files
    processed, and the watcher and the world it leaves. *)
Definition run_once (now : Monotonic) (w : Watcher) (e : World) : nat * Watcher * World :=
  let c := after_loop now w e in
  let w := _prune_missing (seen_paths c) (self c) in
  let '(w, e) := _cleanup_processed_directories w (world c) in
  (processed c, w, e).

(** The calls of [run_once] that [Watcher.run] makes, one for each clock
    reading. *)
Fixpoint run_cycles (clock : list Monotonic) (w : Watcher) (e : World)
    : list nat * Watcher * World :=
  match clock with
  | [] => ([], w, e)
  | now :: clock =>
    let '(n, w, e) := run_once now w e in
    let '(ns, w, e) := run_cycles clock w e in
    (n :: ns, w, e)
  end.

End Model.

(** ** Notions used to state the properties *)

Section Notions.
Context `{Utils}.

Implicit Types (w : Watcher) (e : World) (c : Cycle) (fs : gmap Path Node).
Implicit Types (p q d : Path) (now : Monotonic).

(** [w'] is configured as [w] is. *)
Definition same_config (w w' : Watcher) : Prop :=
  settings w' = settings w ∧
  process_target w' = process_target w ∧
  watch_directory w' = watch_directory w ∧
  poll_interval w' = poll_interval w ∧
  settle_seconds w' = settle_seconds w ∧
  cleanup_empty_source_dirs w' = cleanup_empty_source_dirs w ∧
  cleanup_processed_source_dirs w' = cleanup_processed_source_dirs w.

(** [w'] is configured as [w] is and tracks the same files. *)
Definition same_tracking (w w' : Watcher) : Prop :=
  same_config w w' ∧ _pending w' = _pending w ∧ _attempted w' = _attempted w.

(** No path is pending in the very state in which it has been attempted. *)
Definition pending_unattempted (w : Watcher) : Prop :=
  ∀ p state first_seen,
    _pending w !! p = Some (state, first_seen) → _attempted w !! p ≠ Some state.

(** The watcher states between the public operations: the state that
    [__init__] builds, and the state that [run_once] leaves, whatever the
    clock reading and the world it runs in. *)
Inductive reachable : Watcher → Prop :=
  | reachable_init s callback w :
      init s callback = Some w → reachable w
  | reachable_run_once now w e :
      reachable w → reachable (run_once now w e).1.2.

(** [Target(file_path, self.settings)] *)
Definition target_of (w : Watcher) (p : Path) : Target :=
  {| source := p; target_settings := settings w |}.

(** The visit of [p] invokes the processing callback. *)
Definition invoked now c p : Prop :=
  calls (world (visit now c p)) = calls (world c) ++ [target_of (self c) p].

(** The watcher whose callback does to the filesystem what that of [w]
    does, and returns [answer]. *)
Definition answering (answer : bool) (w : Watcher) : Watcher :=
  {| settings := settings w;
     process_target := λ target fs, (answer, (process_target w target fs).2);
     watch_directory := watch_directory w; poll_interval := poll_interval w;
     settle_seconds := settle_seconds w;
     cleanup_empty_source_dirs := cleanup_empty_source_dirs w;
     cleanup_processed_source_dirs := cleanup_processed_source_dirs w;
     _pending := _pending w; _attempted := _attempted w;
     _processed_dirs := _processed_dirs w |}.

(** The cycle [c] with [w] for its watcher. *)
Definition with_self (w : Watcher) (c : Cycle) : Cycle :=
  {| self := w; world := world c; processed := processed c;
     seen_paths := seen_paths c |}.

(** A regular file at [p] that matches the mask. *)
Definition is_media (mask : list string) fs p : Prop :=
  ∃ n, fs !! p = Some n ∧ kind n = RegularFile ∧ contained mask p.

(** [q] is a matching file, or a matching file lies below it. *)
Definition holds_media (mask : list string) fs q : Prop :=
  ∃ p, q `prefix_of` p ∧ is_media mask fs p.

(** [d'] is a candidate of a sweep over [order] that the sweep can remove
    from [d]: a directory strictly below [d], other than the watch
    directory, that holds no matching file. *)
Definition removable (order : list Path) w e d d' : Prop :=
  d' ∈ order ∧ is_below d d' ∧ is_dir (files e) d' = true ∧
  resolve d' ≠ resolve (watch_directory w) ∧
  _has_masked_files w (files e) d' = false.

(** Whether a step of the sweep keeps its candidate in the set: it does
    when the directory exists and is the watch directory, or holds a
    matching file, or cannot be removed because of an [OSError]. *)
Definition retained (root : Path) w e d : bool :=
  path_exists (files e) d &&
  (bool_decide (resolve d = root)
   || _has_masked_files w (files e) d
   || match remove_directory w e d with OSError => true | Returns _ => false end).

(** Every clean-up candidate lies in the watch directory. *)
Definition candidates_in_watch (w : Watcher) : Prop :=
  ∀ d, d ∈ _processed_dirs w → watch_directory w `prefix_of` d.


(** The directory that a notice names. *)
Definition notice_directory (n : Notice) : Path :=
  match n with
  | DeletedProcessed directory => directory
  | DeletedEmpty directory => directory
  end.

(** The watcher and the world at the moment the sweep of a [run_once] call
    begins. *)
Definition before_sweep now w e : Watcher * World :=
  let c := after_loop now w e in
  (_prune_missing (seen_paths c) (self c), world c).

End Notions.

(** ** Concrete settings, callbacks and filesystems

    The scenarios of [tests/local/test_watcher.py], and the inputs at which
    the properties below are instantiated. *)

Definition ends_with (suffix s : string) : bool :=
  let n := String.length s in
  let k := String.length suffix in
  (k <=? n)%nat && String.eqb (String.substring (n - k) k s) suffix.

(** Matching by file name: a path is blacklisted when its name is one of the
    [ignore] entries, and contained when its name ends in one of the [mask]
    entries. *)
Definition by_name : Utils := {|
  blacklisted ignore p :=
    match last p with
    | Some name => existsb (String.eqb name) ignore
    | None => false
    end;
  contained mask p :=
    match last p with
    | Some name => existsb (λ ext, ends_with ext name) mask
    | None => false
    end;
|}.

Definition watch_settings (dir : Path) (recursive : bool) (settle : Z)
    (empty_dirs processed_dirs : bool) : SettingStore.t :=
  {| SettingStore.watch_enabled := true;
     SettingStore.watch_input_directory := Some dir;
     SettingStore.watch_poll_interval := 1;
     SettingStore.watch_settle_seconds := settle;
     SettingStore.watch_recursive := recursive;
     SettingStore.ignore := [];
     SettingStore.mask := [".mkv"; ".mp4"];
     SettingStore.cleanup_empty_source_dirs := empty_dirs;
     SettingStore.cleanup_processed_source_dirs := processed_dirs |}.

(** [lambda target: True] *)
Definition accept (target : Target) (fs : gmap Path Node) : bool * gmap Path Node :=
  (true, fs).

(** [target.source.unlink(); return True] *)
Definition unlink_source (target : Target) (fs : gmap Path Node) : bool * gmap Path Node :=
  (true, delete (source target) fs).

Definition a_file (size mtime : Z) : Node :=
  {| kind := RegularFile; status := FileState.mk size mtime |}.

Definition a_dir : Node :=
  {| kind := Directory; status := FileState.mk 4096 0 |}.

Definition a_world (fs : gmap Path Node) : World :=
  {| files := fs; calls := []; notices := [] |}.

(** The watcher of a scenario; the settings of the scenarios always name a
    watch directory, the default stands for the [RuntimeError]. *)
Definition watching (s : SettingStore.t)
    (callback : Target → gmap Path Node → bool * gmap Path Node) : Watcher :=
  default
    {| settings := s; process_target := callback; watch_directory := [];
       poll_interval := 1; settle_seconds := 0;
       cleanup_empty_source_dirs := false;
       cleanup_processed_source_dirs := false;
       _pending := ∅; _attempted := ∅; _processed_dirs := ∅ |}
    (init s callback).

(** [directory / name] *)
Definition entry (directory : Path) (name : string) : Path := directory ++ [name].

Definition tmp : Path := ["tmp"].
Definition drop : Path := ["tmp"; "drop"].
Definition release : Path := ["tmp"; "drop"; "release"].

(** A single media file in the watch directory. *)
Definition one_file : gmap Path Node :=
  list_to_map [
    (tmp, a_dir);
    (entry tmp "show.s01e01.mkv", a_file 4 100) ].

(** A release directory holding a media file. *)
Definition one_release : gmap Path Node :=
  list_to_map [
    (tmp, a_dir); (drop, a_dir); (release, a_dir);
    (entry release "show.s01e01.mkv", a_file 4 100) ].

(** A release directory holding a media file, notes and screenshots. *)
Definition full_release : gmap Path Node :=
  list_to_map [
    (tmp, a_dir); (drop, a_dir); (release, a_dir);
    (entry release "show.s01e01.mkv", a_file 4 100);
    (entry release "release.nfo", a_file 5 100);
    (entry release "Screens", a_dir);
    (entry (entry release "Screens") "screen1.jpg", a_file 5 100) ].

(** A directory without any media file. *)
Definition no_media : gmap Path Node :=
  list_to_map [
    (tmp, a_dir); (drop, a_dir); (entry drop "nonmedia", a_dir);
    (entry (entry drop "nonmedia") "readme.txt", a_file 4 100);
    (entry (entry drop "nonmedia") "info.nfo", a_file 4 100) ].

(** Two media files in the watch directory. *)
Definition two_files : gmap Path Node :=
  list_to_map [
    (tmp, a_dir);
    (entry tmp "a.mkv", a_file 4 100);
    (entry tmp "b.mkv", a_file 8 200) ].

(** A callback that moves both files of [two_files] away at once. *)
Definition unlink_both (target : Target) (fs : gmap Path Node) : bool * gmap Path Node :=
  (true, delete (entry tmp "a.mkv") (delete (entry tmp "b.mkv") fs)).

(** A release of which one media file stays behind. *)
Definition kept_release : gmap Path Node :=
  list_to_map [
    (tmp, a_dir); (drop, a_dir); (release, a_dir);
    (entry release "keep.mkv", a_file 4 100);
    (entry release "show.s01e01.mkv", a_file 4 100);
    (entry release "extras", a_dir);
    (entry (entry release "extras") "show.s01e02.mkv", a_file 4 100);
    (entry (entry release "extras") "show.s01e02.nfo", a_file 5 100) ].

(** A callback that fails on [keep.mkv], leaving it in place, and moves
    every other file away. *)
Definition unlink_unless_kept (target : Target) (fs : gmap Path Node)
    : bool * gmap Path Node :=
  if decide (last (source target) = Some "keep.mkv") then (false, fs)
  else (true, delete (source target) fs).

(** The media file of [one_file] while it is still being written. *)
Definition growing_file : gmap Path Node :=
  list_to_map [
    (tmp, a_dir);
    (entry tmp "show.s01e01.mkv", a_file 8 200) ].

(** The watch directory of [one_file] without the file. *)
Definition no_file : gmap Path Node := list_to_map [ (tmp, a_dir) ].

Definition show : Path := entry tmp "show.s01e01.mkv".
Definition show_state : FileState.t := FileState.mk 4 100.

(** The watcher of the first two tests: [tmp] is watched and the callback
    accepts every file. *)
Definition file_watcher (settle : Z) : Watcher :=
  watching (watch_settings tmp false settle false false) accept.

(** The clock reading of a whole number of seconds. *)
Definition seconds (n : N) : Monotonic :=
  {| negative := false; significand := n; exponent := 0 |}.

(** The floats 0.1 and 10.1. *)
Definition a_tenth : Monotonic :=
  {| negative := false; significand := 3602879701896397; exponent := -55 |}.
Definition ten_and_a_tenth : Monotonic :=
  {| negative := false; significand := 5685794529555251; exponent := -49 |}.

(** The watcher of [two_files], with a settle duration of 10 seconds, after
    a first cycle at the clock reading 0. *)
Definition both_watcher : Watcher :=
  (@run_once by_name (seconds 0)
     (watching (watch_settings tmp false 10 false false) unlink_both)
     (a_world two_files)).1.2.

Definition extras : Path := entry release "extras".

(** The watcher of [kept_release], in the dangerous mode, and the state in
    which the sweep of its first cycle begins. *)
Definition kept_watcher : Watcher :=
  watching (watch_settings drop true 0 true true) unlink_unless_kept.

Definition kept_sweep : Watcher * World :=
  @before_sweep by_name (seconds 0) kept_watcher (a_world kept_release).

(** * Properties *)

Section Properties.
Context `{Utils}.

Implicit Types (w : Watcher) (e : World) (c : Cycle) (fs : gmap Path Node).
Implicit Types (p q d : Path) (now : Monotonic).

(** A relation that every step of a left fold respects holds between the
    start and the end of the fold. *)
Lemma foldl_related {A B} (R : relation A) (f : A → B → A) (l : list B) (a : A) :
  (∀ x, R x x) → (∀ x y z, R x y → R y z → R x z) →
  (∀ x b, R x (f x b)) → R a (foldl f a l).
Proof.
  intros Hrefl Htrans Hstep. revert a.
  induction l as [|b l IH]; intros a; [apply Hrefl|].
  simpl. eapply Htrans; [apply Hstep|apply IH].
Qed.

(** ** What the watcher never changes about itself *)

#[local] Instance same_config_refl : Reflexive same_config.
Proof. by intros w. Qed.

#[local] Instance same_config_trans : Transitive same_config.
Proof. unfold same_config. intros w1 w2 w3 ??. intuition congruence. Qed.

(** Destructs every test of the body of the [run_once] loop. *)
Ltac visit_cases :=
  unfold visit, first_sight, process;
  repeat first
    [ progress simpl
    | match goal with
      | |- context [match stat ?fs ?p with _ => _ end] => destruct (stat fs p) eqn:?
      | |- context [match ?m !! ?p with _ => _ end] => destruct (m !! p) as [[? ?]|] eqn:?
      | |- context [lt_int ?a ?b] => destruct (lt_int a b)
      | |- context [path_exists ?fs ?p] => destruct (path_exists fs p) eqn:?
      end
    | case_decide ].

Lemma visit_seen now c p :
  seen_paths (visit now c p) = {[p]} ∪ seen_paths c.
Proof. visit_cases; done. Qed.

Lemma visit_config now c p : same_config (self c) (self (visit now c p)).
Proof. visit_cases; done. Qed.

Lemma visit_pending_other now c p q :
  q ≠ p → _pending (self (visit now c p)) !! q = _pending (self c) !! q.
Proof.
  intros Hq. visit_cases; rw ?lookup_delete_ne ?lookup_insert_ne //.
Qed.

Lemma visit_attempted_other now c p q :
  q ≠ p → _attempted (self (visit now c p)) !! q = _attempted (self c) !! q.
Proof.
  intros Hq. visit_cases; rw ?lookup_insert_ne //.
Qed.

(** A file whose status cannot be read is skipped. *)
Lemma visit_stat_error now c p :
  stat (files (world c)) p = OSError →
  self (visit now c p) = self c ∧ world (visit now c p) = world c ∧
  processed (visit now c p) = processed c.
Proof. intros Hstat. unfold visit. rw Hstat. done. Qed.

(** A file attempted in its present state is skipped. *)
Lemma visit_attempted_same now c p state :
  stat (files (world c)) p = Returns state →
  _attempted (self c) !! p = Some state →
  self (visit now c p) = self c ∧ world (visit now c p) = world c ∧
  processed (visit now c p) = processed c.
Proof.
  intros Hstat Hatt. unfold visit. rw Hstat.
  rw decide_True //.
Qed.

Lemma run_loop_app now l1 l2 c :
  run_loop now (l1 ++ l2) c = run_loop now l2 (run_loop now l1 c).
Proof. unfold run_loop. by rw foldl_app. Qed.

Lemma run_loop_seen now l c :
  seen_paths (run_loop now l c) = list_to_set l ∪ seen_paths c.
Proof.
  revert c. induction l as [|p l IH]; intros c; simpl.
  - set_solver.
  - unfold run_loop in *. simpl. rw IH visit_seen. set_solver.
Qed.

Lemma run_loop_config now l c : same_config (self c) (self (run_loop now l c)).
Proof.
  revert c. induction l as [|p l IH]; intros c; [done|].
  unfold run_loop in *. simpl. etrans; [apply (visit_config now c p)|apply IH].
Qed.

Lemma run_loop_pending_other now l c q :
  q ∉ l → _pending (self (run_loop now l c)) !! q = _pending (self c) !! q.
Proof.
  revert c. induction l as [|p l IH]; intros c Hq; [done|].
  apply not_elem_of_cons in Hq as [??].
  unfold run_loop in *. simpl. rw IH // visit_pending_other //.
Qed.

Lemma run_loop_attempted_other now l c q :
  q ∉ l → _attempted (self (run_loop now l c)) !! q = _attempted (self c) !! q.
Proof.
  revert c. induction l as [|p l IH]; intros c Hq; [done|].
  apply not_elem_of_cons in Hq as [??].
  unfold run_loop in *. simpl. rw IH // visit_attempted_other //.
Qed.

(** ** Pruning and the sweep leave the rest of the watcher alone *)

Lemma prune_config seen w : same_config w (_prune_missing seen w).
Proof. done. Qed.

Lemma prune_pending seen w p :
  _pending (_prune_missing seen w) !! p =
  if decide (p ∈ seen) then _pending w !! p else None.
Proof.
  unfold _prune_missing; simpl. case_decide.
  - destruct (_pending w !! p) as [x|] eqn:Hp.
    + by apply map_lookup_filter_Some.
    + apply map_lookup_filter_None. left. done.
  - apply map_lookup_filter_None. right. by intros x _.
Qed.

Lemma prune_attempted seen w p :
  _attempted (_prune_missing seen w) !! p =
  if decide (p ∈ seen) then _attempted w !! p else None.
Proof.
  unfold _prune_missing; simpl. case_decide.
  - destruct (_attempted w !! p) as [x|] eqn:Hp.
    + by apply map_lookup_filter_Some.
    + apply map_lookup_filter_None. left. done.
  - apply map_lookup_filter_None. right. by intros x _.
Qed.

#[local] Instance same_tracking_refl : Reflexive same_tracking.
Proof. by intros w. Qed.

#[local] Instance same_tracking_trans : Transitive same_tracking.
Proof.
  intros w1 w2 w3 (? & ? & ?) (? & ? & ?).
  split; [by etrans|]. split; congruence.
Qed.

Lemma sweep_tracking root w e d : same_tracking w (sweep root (w, e) d).1.
Proof.
  unfold sweep. repeat case_match; done.
Qed.

Lemma sweep_all_tracking root order w e :
  same_tracking w (foldl (sweep root) (w, e) order).1.
Proof.
  refine (foldl_related (λ st st' : Watcher * World, same_tracking st.1 st'.1)
            (sweep _) order (w, e) _ _ _).
  - done.
  - intros ???. apply same_tracking_trans.
  - intros [w1 e1] d. apply sweep_tracking.
Qed.

Lemma cleanup_tracking order w e :
  same_tracking w (cleanup_in_order order w e).1.
Proof.
  unfold cleanup_in_order. case_match; [done|]. apply sweep_all_tracking.
Qed.

(** The sweep neither invokes the callback nor changes its record. *)
Lemma sweep_calls root w e d : calls (sweep root (w, e) d).2 = calls e.
Proof.
  unfold sweep, remove_directory. repeat case_match; simplify_eq; done.
Qed.

Lemma cleanup_calls order w e : calls (cleanup_in_order order w e).2 = calls e.
Proof.
  unfold cleanup_in_order. case_match; [done|].
  symmetry.
  refine (foldl_related (λ st st' : Watcher * World, calls st.2 = calls st'.2)
            (sweep _) order (w, e) _ _ _).
  - done.
  - congruence.
  - intros [w1 e1] d. symmetry. apply sweep_calls.
Qed.

(** ** Discovery *)

Lemma elem_of_crawl_in roots recurse fs p :
  p ∈ crawl_in roots recurse fs ↔
  ∃ n, fs !! p = Some n ∧ kind n = RegularFile ∧
       Exists (λ root, reaches recurse root p) roots.
Proof.
  unfold crawl_in. rw list_elem_of_fmap. split.
  - intros ([q n] & -> & Hin). apply list_elem_of_filter in Hin as [[??] Hin].
    apply elem_of_map_to_list in Hin. by exists n.
  - intros (n & Hn & ? & ?). exists (p, n). split; [done|].
    apply list_elem_of_filter. split; [done|]. by apply elem_of_map_to_list.
Qed.

Lemma NoDup_crawl_in roots recurse fs : NoDup (crawl_in roots recurse fs).
Proof.
  unfold crawl_in. eapply sublist_NoDup; [apply (NoDup_fst_map_to_list fs)|].
  apply fmap_sublist, sublist_filter.
Qed.

Lemma NoDup_iter_files w fs : NoDup (_iter_files w fs).
Proof.
  unfold _iter_files, filter_containers, filter_blacklist.
  do 2 apply NoDup_filter. apply NoDup_crawl_in.
Qed.

(** Discovery yields regular files below the watch directory that match
    the mask. *)
Lemma elem_of_iter_files w fs p :
  p ∈ _iter_files w fs →
  is_below (watch_directory w) p ∧
  contained (SettingStore.mask (settings w)) p ∧
  ∃ n, fs !! p = Some n ∧ kind n = RegularFile.
Proof.
  unfold _iter_files, filter_containers, filter_blacklist.
  intros (? & (_ & Hin)%list_elem_of_filter)%list_elem_of_filter.
  apply elem_of_crawl_in in Hin as (n & ? & ? & Hroot).
  apply Exists_cons in Hroot as [Hroot|Hroot]; [|by apply Exists_nil in Hroot].
  split; [|split; [done|by exists n]].
  destruct (SettingStore.watch_recursive (settings w)); simpl in Hroot; [done|].
  destruct Hroot as [Hne <-]. unfold is_below, parent. split.
  - exists [List.last p ""]. by apply app_removelast_last.
  - intros Heq. pose proof (app_removelast_last "" Hne) as Hp.
    rw -Heq in Hp. apply (f_equal length) in Hp.
    rw length_app /= in Hp. lia.
Qed.

(** ** The parts of a [run_once] call *)

Lemma after_loop_start now w e :
  after_loop now w e = run_loop now (_iter_files w (files e)) (start w e).
Proof. done. Qed.

Lemma run_once_processed now w e :
  (run_once now w e).1.1 = processed (after_loop now w e).
Proof. unfold run_once. by case_match. Qed.

Lemma run_once_tracking now w e :
  same_tracking
    (_prune_missing (seen_paths (after_loop now w e)) (self (after_loop now w e)))
    (run_once now w e).1.2.
Proof.
  unfold run_once, _cleanup_processed_directories.
  set (c := after_loop now w e). set (w1 := _prune_missing _ _).
  pose proof (cleanup_tracking (elements (_processed_dirs w1)) w1 (world c)) as Hs.
  by destruct (cleanup_in_order _ w1 (world c)).
Qed.

Lemma run_once_config now w e : same_config w (run_once now w e).1.2.
Proof.
  etrans; [|apply run_once_tracking]. etrans; [|apply prune_config].
  apply (run_loop_config now _ (start w e)).
Qed.

Lemma after_loop_seen now w e p :
  p ∈ seen_paths (after_loop now w e) ↔ p ∈ _iter_files w (files e).
Proof. rw after_loop_start run_loop_seen. set_solver. Qed.

Lemma run_once_pending now w e p :
  _pending (run_once now w e).1.2 !! p =
  if decide (p ∈ _iter_files w (files e))
  then _pending (self (after_loop now w e)) !! p else None.
Proof.
  destruct (run_once_tracking now w e) as (_ & -> & _).
  rw prune_pending. repeat case_decide; try done; by rw after_loop_seen in H0.
Qed.

Lemma run_once_attempted now w e p :
  _attempted (run_once now w e).1.2 !! p =
  if decide (p ∈ _iter_files w (files e))
  then _attempted (self (after_loop now w e)) !! p else None.
Proof.
  destruct (run_once_tracking now w e) as (_ & _ & ->).
  rw prune_attempted. repeat case_decide; try done; by rw after_loop_seen in H0.
Qed.

(** ** Tracking is bounded by discovery *)

(** C6: once [run_once] has returned, a path that its discovery pass did
    not produce is tracked neither in [_pending] nor in [_attempted]. *)
Theorem undiscovered_untracked now w e p :
  p ∉ _iter_files w (files e) →
  _pending (run_once now w e).1.2 !! p = None ∧
  _attempted (run_once now w e).1.2 !! p = None.
Proof.
  intros Hp. rw run_once_pending run_once_attempted.
  rw !decide_False //.
Qed.

(** ** A pending file has not been attempted in its pending state *)

Lemma init_pending_unattempted s callback w :
  init s callback = Some w → pending_unattempted w.
Proof.
  unfold init. case_match; [|done]. intros [= <-] p state first_seen. simpl.
  by rw lookup_empty.
Qed.

Lemma visit_pending_unattempted now c p :
  pending_unattempted (self c) → pending_unattempted (self (visit now c p)).
Proof.
  intros Hinv q state first_seen.
  destruct (decide (q = p)) as [->|Hq].
  - specialize (Hinv p). revert Hinv.
    visit_cases; intros Hinv Hp; simplify_map_eq; naive_solver.
  - rw visit_pending_other // visit_attempted_other //. apply Hinv.
Qed.

Lemma run_loop_pending_unattempted now l c :
  pending_unattempted (self c) → pending_unattempted (self (run_loop now l c)).
Proof.
  revert c. induction l as [|p l IH]; intros c Hinv; [done|].
  apply (IH (visit now c p)), visit_pending_unattempted, Hinv.
Qed.

Lemma prune_pending_unattempted seen w :
  pending_unattempted w → pending_unattempted (_prune_missing seen w).
Proof.
  intros Hinv p state first_seen. rw prune_pending prune_attempted.
  case_decide; [apply Hinv|done].
Qed.

Lemma run_once_pending_unattempted now w e :
  pending_unattempted w → pending_unattempted (run_once now w e).1.2.
Proof.
  intros Hinv p state first_seen.
  rw run_once_pending run_once_attempted. case_decide; [|done].
  by apply run_loop_pending_unattempted.
Qed.

(** C9: between the public operations no path is pending and attempted
    with the same snapshot: in every state that [__init__] and [run_once]
    can leave, a pending entry of a path carries a snapshot other than the
    attempted one; and so it is after every visit of the loop of a further
    [run_once] call, and after its pruning. *)
Theorem never_pending_and_attempted w :
  reachable w →
  pending_unattempted w ∧
  ∀ now e file_paths,
    let c := run_loop now file_paths (start w e) in
    pending_unattempted (self c) ∧
    pending_unattempted (_prune_missing (seen_paths c) (self c)).
Proof.
  intros Hreach.
  assert (pending_unattempted w) as Hinv.
  { induction Hreach as [s callback w Hinit|now w e _ IH].
    - by eapply init_pending_unattempted.
    - by apply run_once_pending_unattempted. }
  split; [done|]. intros now e file_paths c.
  assert (pending_unattempted (self c)) as Hc
    by by apply run_loop_pending_unattempted.
  split; [done|]. by apply prune_pending_unattempted.
Qed.

(** ** A file whose status cannot be read *)

(** C10: a discovered file whose [stat] raises [OSError] when the loop
    comes to it is still counted as seen, and the call leaves its pending
    entry (with its first observation time) and its attempted entry as
    they were. *)
Theorem stat_error_keeps_tracking now w e l1 p l2 :
  _iter_files w (files e) = l1 ++ p :: l2 →
  stat (files (world (run_loop now l1 (start w e)))) p = OSError →
  p ∈ seen_paths (after_loop now w e) ∧
  _pending (run_once now w e).1.2 !! p = _pending w !! p ∧
  _attempted (run_once now w e).1.2 !! p = _attempted w !! p.
Proof.
  intros Hfiles Hstat.
  assert (p ∈ _iter_files w (files e)) as Hin by (rw Hfiles; set_solver).
  pose proof (NoDup_iter_files w (files e)) as Hnodup. rw Hfiles in Hnodup.
  apply NoDup_app in Hnodup as (_ & Hl1 & [Hl2 _]%NoDup_cons).
  assert (p ∉ l1) as Hl1' by (intros Hp; apply (Hl1 _ Hp); set_solver).
  split; [by apply after_loop_seen|].
  rw run_once_pending run_once_attempted. rw !decide_True //.
  rw after_loop_start Hfiles.
  rw (run_loop_app now l1 (p :: l2)).
  change (run_loop now (p :: l2) ?c) with (run_loop now l2 (visit now c p)).
  rw run_loop_pending_other // run_loop_attempted_other //.
  destruct (visit_stat_error now _ p Hstat) as (-> & _ & _).
  by rw run_loop_pending_other // run_loop_attempted_other.
Qed.

(** ** Dispatch *)

Lemma dispatch_calls w t e : calls (dispatch w t e) = calls e ++ [t].
Proof. unfold dispatch. by case_match. Qed.

Lemma dispatch_files w t e :
  files (dispatch w t e) = (process_target w t (files e)).2.
Proof. unfold dispatch. by case_match. Qed.

(** A visit either invokes the callback for its path and counts it, or
    leaves the world and the count alone. *)
Lemma visit_calls now c p :
  invoked now c p ∧ processed (visit now c p) = S (processed c) ∨
  world (visit now c p) = world c ∧ processed (visit now c p) = processed c.
Proof.
  unfold invoked. visit_cases; auto; left; by rw dispatch_calls.
Qed.

Lemma invoked_processed now c p :
  invoked now c p ↔ processed (visit now c p) = S (processed c).
Proof.
  destruct (visit_calls now c p) as [[??]|[Hw Hp]]; [done|].
  unfold invoked. rw Hw Hp. split; [|lia].
  intros Heq. apply (f_equal length) in Heq. rw length_app /= in Heq. lia.
Qed.

(** The calls of a run of the loop: one for each file counted, each for a
    path of the run. *)
Lemma run_loop_calls now l c :
  ∃ ts, calls (world (run_loop now l c)) = calls (world c) ++ ts ∧
        processed (run_loop now l c) = (processed c + length ts)%nat ∧
        Forall (λ t, source t ∈ l) ts.
Proof.
  revert c. induction l as [|p l IH]; intros c.
  { exists []. rw app_nil_r /=. split; [done|]. split; [lia|done]. }
  destruct (IH (visit now c p)) as (ts & Hts & Hn & Hsrc).
  change (run_loop now (p :: l) c) with (run_loop now l (visit now c p)).
  destruct (visit_calls now c p) as [[Hcall Hp]|[Hw Hp]].
  - exists (target_of (self c) p :: ts). rw Hts Hn Hcall Hp -app_assoc /=.
    split; [done|]. split; [lia|]. constructor; [set_solver|].
    eapply Forall_impl; [exact Hsrc|]. set_solver.
  - exists ts. rw Hts Hn Hw Hp. split; [done|]. split; [done|].
    eapply Forall_impl; [exact Hsrc|]. set_solver.
Qed.

Lemma run_once_world now w e :
  calls (run_once now w e).2 = calls (world (after_loop now w e)).
Proof.
  unfold run_once, _cleanup_processed_directories.
  set (c := after_loop now w e). set (w1 := _prune_missing _ _).
  pose proof (cleanup_calls (elements (_processed_dirs w1)) w1 (world c)) as Hs.
  by destruct (cleanup_in_order _ w1 (world c)).
Qed.

Lemma first_sight_answering answer now w p state :
  first_sight now (answering answer w) p state =
  ((first_sight now w p state).1, answering answer (first_sight now w p state).2).
Proof. unfold first_sight. simpl. repeat case_match; done. Qed.

Lemma dispatch_answering answer w target e :
  dispatch (answering answer w) target e = dispatch w target e.
Proof. unfold dispatch. simpl. by destruct (process_target w target (files e)). Qed.

Lemma process_answering answer w e p state :
  process (answering answer w) e p state =
  (answering answer (process w e p state).1, (process w e p state).2).
Proof.
  unfold process. change (settings (answering answer w)) with (settings w).
  rw dispatch_answering.
  set (e' := dispatch w _ e). by destruct (path_exists (files e') p).
Qed.

(** The boolean that the callback returns has no part in a visit. *)
Lemma visit_answering answer now c p :
  visit now (with_self (answering answer (self c)) c) p =
  with_self (answering answer (self (visit now c p))) (visit now c p).
Proof.
  unfold visit. cbn -[process first_sight].
  destruct (stat _ p) as [state|]; [|done].
  case_decide; [done|]. rw first_sight_answering.
  destruct (first_sight now (self c) p state) as [first_seen w].
  cbn -[process first_sight].
  destruct (lt_int _ _); [done|]. rw process_answering.
  by destruct (process w (world c) p state).
Qed.

Lemma first_sight_pending now w p state :
  _pending (first_sight now w p state).2 !! p =
  Some (state, (first_sight now w p state).1).
Proof.
  unfold first_sight. destruct (_pending w !! p) as [[state0 first_seen0]|] eqn:Hp;
    [case_decide; simplify_eq|]; simpl; by rw ?lookup_insert_eq.
Qed.

Lemma first_sight_rest now w p state :
  same_config w (first_sight now w p state).2 ∧
  _attempted (first_sight now w p state).2 = _attempted w ∧
  _processed_dirs (first_sight now w p state).2 = _processed_dirs w.
Proof. unfold first_sight. repeat case_match; done. Qed.

(** The bookkeeping of a visit that invokes the callback. *)
Lemma visit_invoked now c p state :
  stat (files (world c)) p = Returns state →
  invoked now c p →
  _attempted (self (visit now c p)) !! p = Some state ∧
  _pending (self (visit now c p)) !! p = None ∧
  processed (visit now c p) = S (processed c) ∧
  files (world (visit now c p)) =
    (process_target (self c) (target_of (self c) p) (files (world c))).2 ∧
  _processed_dirs (self (visit now c p)) =
    if path_exists (files (world (visit now c p))) p then _processed_dirs (self c)
    else {[parent p]} ∪ _processed_dirs (self c).
Proof.
  intros Hstat Hcall. apply invoked_processed in Hcall. revert Hcall.
  unfold visit. rw Hstat /=.
  case_decide; [simpl; lia|].
  destruct (first_sight_rest now (self c) p state) as (Hconf & _ & Hdirs).
  destruct (first_sight now (self c) p state) as [first_seen w]. simpl in *.
  destruct (lt_int _ _); [simpl; lia|]. intros _.
  destruct Hconf as (Hset & Hcb & _).
  unfold process. rw /= dispatch_files Hset Hcb Hdirs. unfold target_of.
  destruct (path_exists _ p); rw /= ?lookup_insert_eq ?lookup_delete_eq //.
Qed.

(** The loop never removes a candidate. *)
Lemma visit_candidates_subseteq now c p :
  _processed_dirs (self c) ⊆ _processed_dirs (self (visit now c p)).
Proof. visit_cases; set_solver. Qed.

Lemma run_loop_candidates_subseteq now l c :
  _processed_dirs (self c) ⊆ _processed_dirs (self (run_loop now l c)).
Proof.
  revert c. induction l as [|p l IH]; intros c; [done|].
  etrans; [apply (visit_candidates_subseteq now c p)|apply IH].
Qed.

(** The boolean that the callback returns has no part in the loop, in
    pruning, in the sweep, nor in [run_once] as a whole. *)
Lemma run_loop_answering answer now l c :
  run_loop now l (with_self (answering answer (self c)) c) =
  with_self (answering answer (self (run_loop now l c))) (run_loop now l c).
Proof.
  revert c. induction l as [|p l IH]; intros c; [done|].
  change (run_loop now (p :: l) c) with (run_loop now l (visit now c p)).
  change (run_loop now (p :: l) (with_self (answering answer (self c)) c))
    with (run_loop now l (visit now (with_self (answering answer (self c)) c) p)).
  rw visit_answering. apply IH.
Qed.

Lemma sweep_answering answer root w e d :
  sweep root (answering answer w, e) d =
  (answering answer (sweep root (w, e) d).1, (sweep root (w, e) d).2).
Proof.
  unfold sweep.
  change (_has_masked_files (answering answer w) (files e) d)
    with (_has_masked_files w (files e) d).
  change (remove_directory (answering answer w) e d) with (remove_directory w e d).
  repeat case_match; done.
Qed.

Lemma sweep_all_answering answer root order w e :
  foldl (sweep root) (answering answer w, e) order =
  (answering answer (foldl (sweep root) (w, e) order).1,
   (foldl (sweep root) (w, e) order).2).
Proof.
  revert w e. induction order as [|d order IH]; intros w e; [done|].
  change (foldl ?f (w, e) (d :: order)) with (foldl f (f (w, e) d) order).
  change (foldl ?f (answering answer w, e) (d :: order))
    with (foldl f (f (answering answer w, e) d) order).
  rw sweep_answering. destruct (sweep root (w, e) d) as [w1 e1]. apply IH.
Qed.

Lemma cleanup_answering answer w e :
  _cleanup_processed_directories (answering answer w) e =
  (answering answer (_cleanup_processed_directories w e).1,
   (_cleanup_processed_directories w e).2).
Proof.
  unfold _cleanup_processed_directories, cleanup_in_order.
  change (cleanup_empty_source_dirs (answering answer w))
    with (cleanup_empty_source_dirs w).
  change (cleanup_processed_source_dirs (answering answer w))
    with (cleanup_processed_source_dirs w).
  change (_processed_dirs (answering answer w)) with (_processed_dirs w).
  change (watch_directory (answering answer w)) with (watch_directory w).
  case_match; [done|]. apply sweep_all_answering.
Qed.

Lemma run_once_answering answer now w e :
  run_once now (answering answer w) e =
  ((run_once now w e).1.1, answering answer (run_once now w e).1.2,
   (run_once now w e).2).
Proof.
  unfold run_once, after_loop.
  change (_iter_files (answering answer w) (files e)) with (_iter_files w (files e)).
  change (start (answering answer w) e)
    with (with_self (answering answer (self (start w e))) (start w e)).
  rw run_loop_answering. set (c := run_loop now _ (start w e)).
  change (_prune_missing ?seen (self (with_self (answering answer (self c)) c)))
    with (answering answer (_prune_missing (seen_paths c) (self c))).
  change (world (with_self ?w' c)) with (world c).
  change (processed (with_self ?w' c)) with (processed c).
  rw cleanup_answering.
  by destruct (_cleanup_processed_directories _ (world c)).
Qed.

(** C8: let [run_once] come to the file [p], read its snapshot [state],
    and invoke the callback for it.  When [run_once] returns, [p] is
    attempted in [state] and no longer pending, and its call is one of the
    calls that the returned count counts.  The visit itself records the
    attempt, removes the pending entry and counts one more; it makes the
    parent directory a clean-up candidate exactly when [p] does not exist
    once the callback has returned, and such a candidate is still one when
    the sweep begins.  None of this depends on what the callback returns:
    with a callback that does the same and returns any other boolean,
    [run_once] returns the same count and leaves the same world and the
    same watcher. *)
Theorem dispatch_bookkeeping now w e l1 p l2 state :
  _iter_files w (files e) = l1 ++ p :: l2 →
  let c := run_loop now l1 (start w e) in
  let c' := visit now c p in
  let r := run_once now w e in
  stat (files (world c)) p = Returns state →
  invoked now c p →
  (_attempted r.1.2 !! p = Some state ∧
   _pending r.1.2 !! p = None ∧
   ∃ ts1 ts2,
     calls r.2 = calls e ++ ts1 ++ target_of w p :: ts2 ∧
     r.1.1 = S (length ts1 + length ts2) ∧
     Forall (λ t, source t ≠ p) (ts1 ++ ts2)) ∧
  (_attempted (self c') !! p = Some state ∧
   _pending (self c') !! p = None ∧
   processed c' = S (processed c) ∧
   files (world c') = (process_target w (target_of w p) (files (world c))).2 ∧
   _processed_dirs (self c') =
     (if path_exists (files (world c')) p then _processed_dirs (self c)
      else {[parent p]} ∪ _processed_dirs (self c)) ∧
   (path_exists (files (world c')) p = false →
    parent p ∈ _processed_dirs (before_sweep now w e).1)) ∧
  ∀ answer,
    run_once now (answering answer w) e = (r.1.1, answering answer r.1.2, r.2).
Proof.
  intros Hfiles c c' r Hstat Hcall.
  assert (p ∈ _iter_files w (files e)) as Hin by (rw Hfiles; set_solver).
  pose proof (NoDup_iter_files w (files e)) as Hnodup. rw Hfiles in Hnodup.
  apply NoDup_app in Hnodup as (_ & Hl1 & [Hl2 _]%NoDup_cons).
  assert (p ∉ l1) as Hl1' by (intros Hp; apply (Hl1 _ Hp); set_solver).
  destruct (visit_invoked now c p state Hstat Hcall) as (Ha & Hp & Hn & Hf & Hd).
  destruct (run_loop_config now l1 (start w e)) as (Hset & Hcb & _).
  fold c in Hset, Hcb. simpl in Hset, Hcb.
  assert (target_of (self c) p = target_of w p) as Htarget
    by (unfold target_of; by rw Hset).
  rw Hcb Htarget in Hf.
  assert (after_loop now w e = run_loop now l2 c') as Hloop.
  { rw after_loop_start Hfiles (run_loop_app now l1 (p :: l2)). done. }
  split; [|split].
  - unfold r. rw run_once_attempted run_once_pending !decide_True // Hloop.
    rw run_loop_attempted_other // run_loop_pending_other //.
    split; [done|]. split; [done|].
    destruct (run_loop_calls now l1 (start w e)) as (ts1 & Hts1 & Hn1 & Hsrc1).
    destruct (run_loop_calls now l2 c') as (ts2 & Hts2 & Hn2 & Hsrc2).
    fold c in Hts1, Hn1. simpl in Hts1, Hn1.
    exists ts1, ts2. rw run_once_world run_once_processed Hloop Hts2 Hn2 Hn.
    unfold c'. rw Hcall Hts1 Hn1 Htarget -!app_assoc /=.
    split; [done|]. split; [lia|].
    apply Forall_app. split; (eapply Forall_impl; [eassumption|]);
      simpl; intros t Ht Heq; by rw Heq in Ht.
  - split_and!; try done. intros Hgone.
    unfold before_sweep. rw Hloop. cbn [fst].
    change (_processed_dirs (_prune_missing ?seen ?w1)) with (_processed_dirs w1).
    apply (run_loop_candidates_subseteq now l2 c').
    fold c' in Hd. rw Hd Hgone. set_solver.
  - intros answer. apply run_once_answering.
Qed.

(** ** At most one dispatch for each snapshot *)

(** C3: let the file [p] be dispatched in one cycle, with the snapshot
    [state] read at its visit.  If the next [run_once] call reads the same
    snapshot when it comes to [p], the visit does not invoke the callback,
    and none of the calls that make up the returned count is for [p]. *)
Theorem unchanged_not_redispatched now1 w0 e0 k1 k2 now2 e2 l1 l2 p state :
  let c1 := run_loop now1 k1 (start w0 e0) in
  let w1 := (run_once now1 w0 e0).1.2 in
  let c2 := run_loop now2 l1 (start w1 e2) in
  _iter_files w0 (files e0) = k1 ++ p :: k2 →
  stat (files (world c1)) p = Returns state →
  invoked now1 c1 p →
  _iter_files w1 (files e2) = l1 ++ p :: l2 →
  stat (files (world c2)) p = Returns state →
  ¬ invoked now2 c2 p ∧
  ∃ ts, calls (run_once now2 w1 e2).2 = calls e2 ++ ts ∧
        (run_once now2 w1 e2).1.1 = length ts ∧
        Forall (λ t, source t ≠ p) ts.
Proof.
  intros c1 w1 c2 Hfiles1 Hstat1 Hcall1 Hfiles2 Hstat2.
  (* the first cycle leaves [p] attempted in [state] *)
  assert (_attempted w1 !! p = Some state) as Hatt.
  { pose proof (NoDup_iter_files w0 (files e0)) as Hnodup. rw Hfiles1 in Hnodup.
    apply NoDup_app in Hnodup as (_ & _ & [Hk2 _]%NoDup_cons).
    unfold w1. rw run_once_attempted decide_True; [|rw Hfiles1; set_solver].
    rw after_loop_start Hfiles1 (run_loop_app now1 k1 (p :: k2)).
    change (run_loop now1 (p :: k2) ?c) with (run_loop now1 k2 (visit now1 c p)).
    rw run_loop_attempted_other //.
    by destruct (visit_invoked now1 c1 p state Hstat1 Hcall1) as [? _]. }
  (* the second cycle skips it *)
  pose proof (NoDup_iter_files w1 (files e2)) as Hnodup. rw Hfiles2 in Hnodup.
  apply NoDup_app in Hnodup as (_ & Hl1 & [Hl2 _]%NoDup_cons).
  assert (p ∉ l1) as Hl1' by (intros Hp; apply (Hl1 _ Hp); set_solver).
  assert (_attempted (self c2) !! p = Some state) as Hatt2.
  { unfold c2. by rw run_loop_attempted_other. }
  destruct (visit_attempted_same now2 c2 p state Hstat2 Hatt2) as (Hself & Hworld & Hcount).
  split.
  { rw invoked_processed Hcount. lia. }
  destruct (run_loop_calls now2 l1 (start w1 e2)) as (ts1 & Hts1 & Hn1 & Hsrc1).
  destruct (run_loop_calls now2 l2 (visit now2 c2 p)) as (ts2 & Hts2 & Hn2 & Hsrc2).
  exists (ts1 ++ ts2).
  rw run_once_world run_once_processed after_loop_start Hfiles2.
  rw (run_loop_app now2 l1 (p :: l2)).
  change (run_loop now2 (p :: l2) ?c) with (run_loop now2 l2 (visit now2 c p)).
  rw Hts2 Hn2 Hworld Hcount. fold c2 in Hts1, Hn1. rw Hts1 Hn1 /=.
  rw length_app app_assoc. split; [done|]. split; [lia|].
  apply Forall_app. split; (eapply Forall_impl; [eassumption|]);
    simpl; intros t Ht Heq; by rw Heq in Ht.
Qed.

(** ** The sweep spares matching content *)

Lemma has_masked_files_true w fs d :
  _has_masked_files w fs d = true ↔
  ∃ p, is_below d p ∧ is_media (SettingStore.mask (settings w)) fs p.
Proof.
  unfold _has_masked_files, filter_containers.
  set (l := filter _ _).
  assert (∀ p, p ∈ l ↔ is_below d p ∧ is_media (SettingStore.mask (settings w)) fs p)
    as Hl.
  { intros p. unfold l, is_media. rw list_elem_of_filter elem_of_crawl_in.
    split.
    - intros (? & n & ? & ? & [?|[]%Exists_nil]%Exists_cons). eauto.
    - intros (? & n & ? & ? & ?). split; [done|]. exists n.
      split; [done|]. split; [done|]. by left. }
  destruct l as [|p l'].
  - split; [done|]. intros (p & Hp). apply Hl in Hp. by apply elem_of_nil in Hp.
  - split; [|done]. intros _. exists p. apply Hl. by left.
Qed.

Lemma is_dir_spec fs d :
  is_dir fs d = true ↔ ∃ n, fs !! d = Some n ∧ kind n = Directory.
Proof.
  unfold is_dir. rw bool_decide_eq_true. destruct (fs !! d) as [n|]; simpl.
  - split; [intros [= ?]; by exists n|]. by intros (? & [= <-] & ->).
  - split; [done|]. by intros (? & ? & _).
Qed.

Lemma rmtree_lookup fs d fs' q :
  rmtree fs d = Returns fs' →
  fs' !! q = if decide (d `prefix_of` q) then None else fs !! q.
Proof.
  unfold rmtree. case_match; [|done]. intros [= <-].
  rw map_lookup_filter. destruct (fs !! q) as [n|]; simpl.
  - case_decide.
    + rw option_guard_False //. by intros ?.
    + by rw option_guard_True.
  - by case_decide.
Qed.

Lemma rmtree_is_dir fs d fs' : rmtree fs d = Returns fs' → is_dir fs d = true.
Proof. unfold rmtree. by case_match. Qed.

Lemma iterdir_is_dir fs d l : iterdir fs d = Returns l → is_dir fs d = true.
Proof. unfold iterdir. by case_match. Qed.

Lemma rmdir_delete fs d fs' :
  rmdir fs d = Returns fs' → fs' = delete d fs ∧ iterdir fs d = Returns [].
Proof.
  unfold rmdir. destruct (iterdir fs d) as [[|??]|]; [|done..]. by intros [= <-].
Qed.

(** What the [try] block of the sweep does to the filesystem when it does
    not raise: nothing, the removal of a whole tree in the processed mode,
    or the removal of an empty directory in the empty mode. *)
Lemma remove_directory_returns w e d e' :
  remove_directory w e d = Returns e' →
  e' = e ∨
  (cleanup_processed_source_dirs w = true ∧
   rmtree (files e) d = Returns (files e')) ∨
  (cleanup_processed_source_dirs w = false ∧
   cleanup_empty_source_dirs w = true ∧
   iterdir (files e) d = Returns [] ∧ files e' = delete d (files e)).
Proof.
  unfold remove_directory.
  destruct (cleanup_processed_source_dirs w).
  - destruct (rmtree (files e) d) as [fs|] eqn:Hrm; [|done].
    intros [= <-]. right; left. done.
  - destruct (cleanup_empty_source_dirs w); [|intros [= <-]; by left].
    destruct (iterdir (files e) d) as [[|??]|] eqn:Hit;
      [|intros [= <-]; by left|done].
    destruct (rmdir (files e) d) as [fs|] eqn:Hrm; [|done].
    intros [= <-]. right; right. by apply rmdir_delete in Hrm as [-> _].
Qed.

(** A step of the sweep changes the filesystem only through the [try]
    block, and only for a candidate that is not the watch directory and
    holds no matching file. *)
Lemma sweep_changes root w e d :
  (sweep root (w, e) d).2 = e ∨
  (resolve d ≠ root ∧ _has_masked_files w (files e) d = false ∧
   remove_directory w e d = Returns (sweep root (w, e) d).2).
Proof.
  unfold sweep. destruct (path_exists (files e) d); [|by left]. simpl.
  case_decide; [by left|].
  destruct (_has_masked_files w (files e) d) eqn:Hm; [by left|].
  destruct (remove_directory w e d) as [e'|] eqn:Hrm; [|by left]. by right.
Qed.

(** A directory that holds no matching file is not above a matching
    file, nor above a path that is. *)
Lemma no_media_below w fs d q :
  _has_masked_files w fs d = false → is_dir fs d = true →
  holds_media (SettingStore.mask (settings w)) fs q → ¬ d `prefix_of` q.
Proof.
  intros Hm (nd & Hd & Hkind)%is_dir_spec (p & Hqp & Hp) Hdq.
  apply not_true_iff_false in Hm. apply Hm, has_masked_files_true.
  exists p. split; [|done]. split; [by etrans|].
  intros ->. destruct Hp as (n & ? & ? & _). congruence.
Qed.

Lemma sweep_keeps_media root w e d q :
  holds_media (SettingStore.mask (settings w)) (files e) q →
  files (sweep root (w, e) d).2 !! q = files e !! q.
Proof.
  intros Hq.
  destruct (sweep_changes root w e d) as [->|(_ & Hm & Hrm)]; [done|].
  apply remove_directory_returns in Hrm
    as [->|[(_ & Hrm)|(_ & _ & Hit & ->)]]; [done|..].
  - rw (rmtree_lookup _ _ _ q Hrm). rw decide_False //.
    eapply no_media_below; eauto using rmtree_is_dir.
  - apply lookup_delete_ne. intros ->.
    eapply (no_media_below w (files e) q q); eauto using iterdir_is_dir.
Qed.

Lemma holds_media_keeps mask fs fs' q :
  (∀ q, holds_media mask fs q → fs' !! q = fs !! q) →
  holds_media mask fs q → holds_media mask fs' q.
Proof.
  intros Hkeep (p & Hqp & n & Hn & Hrest). exists p. split; [done|].
  exists n. split; [|done]. rw Hkeep //. exists p. split; [done|by exists n].
Qed.

Lemma sweep_all_keeps_media root order w e q :
  holds_media (SettingStore.mask (settings w)) (files e) q →
  files (foldl (sweep root) (w, e) order).2 !! q = files e !! q.
Proof.
  revert q.
  refine (proj2 (foldl_related
    (λ st st' : Watcher * World,
       settings st'.1 = settings st.1 ∧
       ∀ q, holds_media (SettingStore.mask (settings st.1)) (files st.2) q →
            files st'.2 !! q = files st.2 !! q)
    (sweep root) order (w, e) _ _ _)).
  - done.
  - intros [w1 e1] [w2 e2] [w3 e3] [Hs1 H1] [Hs2 H2]; simpl in *.
    split; [congruence|]. intros q Hq. rw H2 ?H1 // Hs1.
    by eapply holds_media_keeps.
  - intros [w1 e1] d. split.
    + by destruct (sweep_tracking root w1 e1 d) as ((? & _) & _).
    + intros q. apply sweep_keeps_media.
Qed.

Lemma cleanup_keeps_media order w e q :
  holds_media (SettingStore.mask (settings w)) (files e) q →
  files (cleanup_in_order order w e).2 !! q = files e !! q.
Proof.
  unfold cleanup_in_order. case_match; [done|]. apply sweep_all_keeps_media.
Qed.

Lemma has_masked_files_holds w fs d :
  _has_masked_files w fs d = true →
  holds_media (SettingStore.mask (settings w)) fs d.
Proof.
  intros (p & [Hdp _] & Hp)%has_masked_files_true. by exists p.
Qed.

Lemma sweep_candidates root w e d :
  _processed_dirs (sweep root (w, e) d).1 =
  if retained root w e d then _processed_dirs w else _processed_dirs w ∖ {[d]}.
Proof.
  unfold sweep, retained. destruct (path_exists (files e) d); [|done]. simpl.
  case_decide.
  { by rw bool_decide_eq_true_2. }
  rw bool_decide_eq_false_2 //=.
  destruct (_has_masked_files w (files e) d); [done|]. simpl.
  by destruct (remove_directory w e d).
Qed.

Lemma sweep_keeps_masked root w e d0 d :
  _has_masked_files w (files e) d = true →
  _has_masked_files (sweep root (w, e) d0).1 (files (sweep root (w, e) d0).2) d = true.
Proof.
  intros (p & Hdp & n & Hn & Hrest)%has_masked_files_true.
  apply has_masked_files_true. exists p. split; [done|].
  destruct (sweep_tracking root w e d0) as ((-> & _) & _).
  exists n. split; [|done]. rw sweep_keeps_media //.
  exists p. split; [done|by exists n].
Qed.

Lemma sweep_all_keeps_candidate root order w e d :
  _has_masked_files w (files e) d = true →
  path_exists (files e) d = true →
  d ∈ _processed_dirs w →
  d ∈ _processed_dirs (foldl (sweep root) (w, e) order).1.
Proof.
  revert w e. induction order as [|d0 order IH]; intros w e Hm Hex Hd; [done|].
  pose proof (sweep_keeps_masked root w e d0 d Hm) as Hm'.
  pose proof (sweep_keeps_media root w e d0 d (has_masked_files_holds _ _ _ Hm)) as Hd'.
  pose proof (sweep_candidates root w e d0) as Hc.
  change (foldl (sweep root) (w, e) (d0 :: order))
    with (foldl (sweep root) (sweep root (w, e) d0) order).
  destruct (sweep root (w, e) d0) as [w1 e1]. simpl in *. apply IH; [done|..].
  - unfold path_exists in *. by rw Hd'.
  - rw Hc. destruct (retained root w e d0) eqn:Hret; [done|].
    apply elem_of_difference. split; [done|]. intros ->%elem_of_singleton.
    unfold retained in Hret. rw Hex Hm orb_true_r in Hret. done.
Qed.

(** The sweep only removes. *)
Lemma sweep_only_removes root w e d q n :
  files (sweep root (w, e) d).2 !! q = Some n → files e !! q = Some n.
Proof.
  destruct (sweep_changes root w e d) as [->|(_ & _ & Hrm)]; [done|].
  apply remove_directory_returns in Hrm
    as [->|[(_ & Hrm)|(_ & _ & _ & ->)]]; [done|..].
  - rw (rmtree_lookup _ _ _ q Hrm). by case_decide.
  - by intros [_ ?]%lookup_delete_Some.
Qed.

Lemma sweep_all_only_removes root order w e q n :
  files (foldl (sweep root) (w, e) order).2 !! q = Some n → files e !! q = Some n.
Proof.
  revert q n.
  refine (foldl_related
    (λ st st' : Watcher * World,
       ∀ q n, files st'.2 !! q = Some n → files st.2 !! q = Some n)
    (sweep root) order (w, e) _ _ _).
  - done.
  - intros ??? H1 H2 q n Hq. by apply H1, H2.
  - intros [w1 e1] d q n. apply sweep_only_removes.
Qed.

(** A directory that holds no matching file holds none after a step of the
    sweep. *)
Lemma sweep_keeps_unmasked root w e d0 d :
  _has_masked_files w (files e) d = false →
  _has_masked_files (sweep root (w, e) d0).1 (files (sweep root (w, e) d0).2) d = false.
Proof.
  intros Hm. apply not_true_iff_false. intros Hm'.
  apply not_true_iff_false in Hm. apply Hm.
  apply has_masked_files_true in Hm' as (p & Hdp & Hp).
  destruct (sweep_tracking root w e d0) as ((Hs & _) & _). rw Hs in Hp.
  destruct Hp as (n & Hn & Hrest).
  apply has_masked_files_true. exists p. split; [done|].
  exists n. split; [|done]. by eapply sweep_only_removes.
Qed.

(** A step of the sweep leaves a path alone or removes it.  It removes
    only from a candidate that is a directory, is not the watch directory
    and holds no matching file: the tree of the candidate in the processed
    mode, the candidate alone in the empty mode. *)
Lemma sweep_removes_unmasked root w e d q :
  files (sweep root (w, e) d).2 !! q = files e !! q ∨
  files (sweep root (w, e) d).2 !! q = None ∧ d `prefix_of` q ∧
  resolve d ≠ root ∧ is_dir (files e) d = true ∧
  _has_masked_files w (files e) d = false ∧
  (cleanup_processed_source_dirs w = true ∨
   cleanup_empty_source_dirs w = true ∧ q = d).
Proof.
  destruct (sweep_changes root w e d) as [->|(Hne & Hm & Hrm)]; [by left|].
  apply remove_directory_returns in Hrm
    as [->|[(Hp & Hrm)|(_ & He & Hit & ->)]]; [by left|..].
  - rw (rmtree_lookup _ _ _ q Hrm). case_decide; [|by left].
    right. split_and!; eauto using rmtree_is_dir.
  - destruct (decide (q = d)) as [->|Hq].
    + right. rw lookup_delete_eq. split_and!; eauto using iterdir_is_dir.
    + left. by rw lookup_delete_ne.
Qed.

Lemma sweep_all_removes_unmasked root order w e q :
  files (foldl (sweep root) (w, e) order).2 !! q ≠ files e !! q →
  files (foldl (sweep root) (w, e) order).2 !! q = None ∧
  ∃ d, d ∈ order ∧ d `prefix_of` q ∧ resolve d ≠ root ∧
       is_dir (files e) d = true ∧ _has_masked_files w (files e) d = false ∧
       (cleanup_processed_source_dirs w = true ∨
        cleanup_empty_source_dirs w = true ∧ q = d).
Proof.
  revert w e. induction order as [|d order IH]; intros w e Hq; [done|].
  change (foldl ?f (w, e) (d :: order)) with (foldl f (f (w, e) d) order) in *.
  pose proof (sweep_keeps_masked root w e d) as Hmasked.
  pose proof (sweep_only_removes root w e d) as Honly.
  destruct (sweep_tracking root w e d) as ((_ & _ & _ & _ & _ & He & Hp) & _).
  destruct (sweep_removes_unmasked root w e d q) as [Hsame|(Hnone & Hrest)];
    destruct (sweep root (w, e) d) as [w1 e1]; cbn [fst snd] in *.
  - destruct (IH w1 e1) as (? & d' & ? & ? & ? & Hdir & Hm & Hmode); [by rw Hsame|].
    split; [done|]. exists d'. split; [by right|]. split; [done|]. split; [done|].
    split.
    { apply is_dir_spec in Hdir as (n & Hn & ?). apply is_dir_spec.
      exists n. split; [by apply Honly|done]. }
    split; [|by rw -He -Hp].
    destruct (_has_masked_files w (files e) d') eqn:Hm0; [|done].
    apply Hmasked in Hm0. congruence.
  - assert (files (foldl (sweep root) (w1, e1) order).2 !! q = None) as Hend.
    { apply eq_None_not_Some. intros [n Hn].
      apply sweep_all_only_removes in Hn. congruence. }
    split; [done|]. exists d. split; [by left|done].
Qed.

(** In the processed mode a step of the sweep changes nothing or removes
    the tree of its candidate. *)
Lemma sweep_processed root w e d0 :
  cleanup_processed_source_dirs w = true →
  files (sweep root (w, e) d0).2 = files e ∨
  ∀ q, files (sweep root (w, e) d0).2 !! q =
       if decide (d0 `prefix_of` q) then None else files e !! q.
Proof.
  intros Hp.
  destruct (sweep_changes root w e d0) as [->|(_ & _ & Hrm)]; [by left|].
  apply remove_directory_returns in Hrm
    as [->|[(_ & Hrm)|(Hp' & _)]]; [by left| |congruence].
  right. intros q. by apply rmtree_lookup.
Qed.

Lemma sweep_all_keeps_gone root order (st : Watcher * World) q :
  files st.2 !! q = None → files (foldl (sweep root) st order).2 !! q = None.
Proof.
  destruct st as [w e]. intros Hq. apply eq_None_not_Some. intros [n Hn].
  apply sweep_all_only_removes in Hn. simpl in *. congruence.
Qed.

(** In the processed mode the sweep removes the tree of every candidate
    that is a directory, is not the watch directory and holds no matching
    file. *)
Lemma sweep_all_removes_tree root order w e d :
  cleanup_processed_source_dirs w = true →
  d ∈ order → resolve d ≠ root →
  is_dir (files e) d = true → _has_masked_files w (files e) d = false →
  ∀ q, d `prefix_of` q → files (foldl (sweep root) (w, e) order).2 !! q = None.
Proof.
  intros Hp Hin Hroot Hdir Hm q Hdq. revert w e Hp Hin Hdir Hm.
  induction order as [|d0 order IH]; intros w e Hp Hin Hdir Hm.
  { by apply elem_of_nil in Hin. }
  change (foldl ?f (w, e) (d0 :: order)) with (foldl f (f (w, e) d0) order).
  pose proof (sweep_keeps_unmasked root w e d0 d Hm) as Hm1.
  pose proof (sweep_processed root w e d0 Hp) as Hstep.
  destruct (sweep_tracking root w e d0) as ((_ & _ & _ & _ & _ & _ & Hp1) & _).
  destruct (decide (d0 = d)) as [->|Hne].
  - clear IH Hm1 Hstep Hp1. apply sweep_all_keeps_gone. unfold sweep.
    assert (path_exists (files e) d = true) as ->.
    { apply is_dir_spec in Hdir as (n & Hn & _).
      apply bool_decide_eq_true. by exists n. }
    rw /= decide_False // Hm. unfold remove_directory, rmtree. rw Hp Hdir /=.
    apply map_lookup_filter_None. right. intros n _ Hnot. by apply Hnot.
  - apply elem_of_cons in Hin as [?|Hin]; [done|].
    destruct (sweep root (w, e) d0) as [w1 e1]; cbn [fst snd] in *.
    destruct Hstep as [Hsame|Hrm].
    + apply IH; [by rw Hp1|done|by rw Hsame|done].
    + destruct (decide (d0 `prefix_of` d)) as [Hpre|Hpre].
      * apply sweep_all_keeps_gone. rw /= Hrm decide_True //. by etrans.
      * apply IH; [by rw Hp1|done| |done].
        unfold is_dir in *. by rw Hrm decide_False.
Qed.

(** C1 (as amended): a directory [d] that holds a file matching the mask
    when the sweep starts is not deleted by it, whatever the clean-up flags
    and whatever the order of the sweep; nor is any matching file below it,
    nor any directory that a matching file lies below.  What the sweep
    deletes of [d] lies at or below another of its candidates, a directory
    strictly below [d] that is not the watch directory and holds no
    matching file, and is that candidate itself unless the processed mode
    is on; everything else of [d] is as it was.  In the processed mode the
    tree of every such candidate is deleted.  After the sweep [d] still
    holds a matching file, and if it was a candidate it is still one. *)
Theorem sweep_spares_media order w e d :
  _has_masked_files w (files e) d = true →
  let w' := (cleanup_in_order order w e).1 in
  let e' := (cleanup_in_order order w e).2 in
  files e' !! d = files e !! d ∧
  (∀ q, d `prefix_of` q →
        holds_media (SettingStore.mask (settings w)) (files e) q →
        files e' !! q = files e !! q) ∧
  (∀ q, d `prefix_of` q →
        files e' !! q = files e !! q ∨
        files e' !! q = None ∧
        ∃ d', removable order w e d d' ∧ d' `prefix_of` q ∧
              (cleanup_processed_source_dirs w = true ∨
               cleanup_empty_source_dirs w = true ∧ q = d')) ∧
  (cleanup_processed_source_dirs w = true →
   ∀ d' q, removable order w e d d' → d' `prefix_of` q → files e' !! q = None) ∧
  _has_masked_files w' (files e') d = true ∧
  (path_exists (files e) d = true → d ∈ _processed_dirs w → d ∈ _processed_dirs w').
Proof.
  intros Hm. cbv zeta.
  split; [by apply cleanup_keeps_media, has_masked_files_holds|].
  split; [intros q _; apply cleanup_keeps_media|].
  split; [|split; [|split]].
  - intros q Hdq.
    destruct (decide (files (cleanup_in_order order w e).2 !! q = files e !! q))
      as [|Hq]; [by left|]. right.
    revert Hq. unfold cleanup_in_order. case_match; [done|]. intros Hq.
    apply sweep_all_removes_unmasked
      in Hq as (Hnone & d' & Hin & Hd'q & Hroot & Hdir & Hm' & Hmode).
    split; [done|]. exists d'. split; [|done].
    split; [done|]. split; [|done].
    destruct (prefix_weak_total d d' q Hdq Hd'q) as [Hpre|Hpre].
    + split; [done|]. intros ->. congruence.
    + exfalso. apply not_true_iff_false in Hm'. apply Hm'.
      apply has_masked_files_true in Hm as (p & [Hdp _] & n & Hn & Hkind & Hmask).
      apply has_masked_files_true. exists p.
      split; [|by exists n]. split; [by etrans|]. intros ->.
      apply is_dir_spec in Hdir as (n' & ? & ?). congruence.
  - intros Hp d' q (Hin & _ & Hdir & Hroot & Hm') Hd'q.
    unfold cleanup_in_order. rw Hp andb_false_r.
    by apply (sweep_all_removes_tree _ order w e d').
  - apply has_masked_files_true in Hm as (p & Hdp & n & Hn & Hrest).
    apply has_masked_files_true. exists p. split; [done|].
    destruct (cleanup_tracking order w e) as ((-> & _) & _).
    exists n. split; [|done]. rw cleanup_keeps_media //.
    exists p. split; [done|by exists n].
  - intros Hex Hd. unfold cleanup_in_order. case_match; [done|].
    by apply sweep_all_keeps_candidate.
Qed.

(** ** The sweep spares the watch directory *)

Lemma parent_below root p : is_below root p → root `prefix_of` parent p.
Proof.
  intros [[k ->] Hne]. unfold parent.
  destruct (decide (k = [])) as [->|Hk]; [by rw app_nil_r in Hne|].
  rw removelast_app //. by apply prefix_app_r.
Qed.

Lemma visit_candidates_in_watch now c p :
  is_below (watch_directory (self c)) p →
  candidates_in_watch (self c) → candidates_in_watch (self (visit now c p)).
Proof.
  intros Hp%parent_below Hinv d.
  destruct (visit_config now c p) as (_ & _ & -> & _). revert d.
  visit_cases; try done; intros d [->%elem_of_singleton|?]%elem_of_union; auto.
Qed.

Lemma run_loop_candidates_in_watch now l c :
  Forall (is_below (watch_directory (self c))) l →
  candidates_in_watch (self c) → candidates_in_watch (self (run_loop now l c)).
Proof.
  revert c. induction l as [|p l IH]; intros c Hl Hinv; [done|].
  apply Forall_cons in Hl as [Hp Hl].
  apply (IH (visit now c p)).
  - by destruct (visit_config now c p) as (_ & _ & -> & _).
  - by apply visit_candidates_in_watch.
Qed.

Lemma after_loop_candidates_in_watch now w e :
  candidates_in_watch w → candidates_in_watch (self (after_loop now w e)).
Proof.
  intros Hinv. apply (run_loop_candidates_in_watch now _ (start w e)); [|done].
  apply Forall_forall. intros p Hp. by apply elem_of_iter_files in Hp as [? _].
Qed.

Lemma sweep_candidates_subseteq root w e d :
  _processed_dirs (sweep root (w, e) d).1 ⊆ _processed_dirs w.
Proof. rw sweep_candidates. case_match; set_solver. Qed.

Lemma cleanup_candidates_subseteq order w e :
  _processed_dirs (cleanup_in_order order w e).1 ⊆ _processed_dirs w.
Proof.
  unfold cleanup_in_order. case_match; [done|].
  refine (foldl_related
    (λ st st' : Watcher * World, _processed_dirs st'.1 ⊆ _processed_dirs st.1)
    (sweep _) order (w, e) _ _ _).
  - done.
  - intros ??? ??. by etrans.
  - intros [w1 e1] d. apply sweep_candidates_subseteq.
Qed.

Lemma run_once_candidates_in_watch now w e :
  candidates_in_watch w → candidates_in_watch (run_once now w e).1.2.
Proof.
  intros Hinv%(after_loop_candidates_in_watch now w e) d.
  destruct (run_once_config now w e) as (_ & _ & -> & _).
  destruct (run_loop_config now (_iter_files w (files e)) (start w e))
    as (_ & _ & Hdir & _). rw -after_loop_start in Hdir. simpl in Hdir. rw -Hdir.
  unfold run_once, _cleanup_processed_directories.
  set (c := after_loop now w e) in *. set (w1 := _prune_missing _ _).
  pose proof (cleanup_candidates_subseteq (elements (_processed_dirs w1)) w1 (world c)) as Hs.
  destruct (cleanup_in_order _ w1 (world c)) as [w2 e2]. simpl in *.
  intros Hd. apply Hinv. by apply Hs.
Qed.

Lemma reachable_candidates_in_watch w : reachable w → candidates_in_watch w.
Proof.
  induction 1 as [s callback w Hinit|now w e _ IH].
  - unfold init in Hinit. case_match; [|done]. injection Hinit as <-.
    intros d. simpl. set_solver.
  - by apply run_once_candidates_in_watch.
Qed.

(** A step of the sweep on a candidate in the watch directory leaves the
    watch directory in place. *)
Lemma sweep_keeps_root w e d :
  watch_directory w `prefix_of` d →
  files (sweep (resolve (watch_directory w)) (w, e) d).2 !! watch_directory w =
  files e !! watch_directory w.
Proof.
  intros Hd.
  destruct (sweep_changes (resolve (watch_directory w)) w e d)
    as [->|(Hne & _ & Hrm)]; [done|].
  unfold resolve in Hne.
  apply remove_directory_returns in Hrm
    as [->|[(_ & Hrm)|(_ & _ & _ & ->)]]; [done|..].
  - rw (rmtree_lookup _ _ _ _ Hrm). rw decide_False //.
    intros Hd'. by apply Hne, (anti_symm prefix).
  - by apply lookup_delete_ne.
Qed.

Lemma sweep_all_keeps_root order w e :
  Forall (λ d, watch_directory w `prefix_of` d) order →
  files (foldl (sweep (resolve (watch_directory w))) (w, e) order).2
    !! watch_directory w = files e !! watch_directory w.
Proof.
  revert w e. induction order as [|d order IH]; intros w e Hall; [done|].
  apply Forall_cons in Hall as [Hd Hall].
  pose proof (sweep_keeps_root w e d Hd) as Hroot.
  destruct (sweep_tracking (resolve (watch_directory w)) w e d)
    as ((_ & _ & Hdir & _) & _).
  change (foldl ?f (w, e) (d :: order)) with (foldl f (f (w, e) d) order).
  destruct (sweep _ (w, e) d) as [w1 e1]. simpl in *.
  rw -Hdir IH; [by rw Hdir|]. by rw Hdir.
Qed.

(** C2: a candidate that resolves to the resolved watch directory is never
    deleted by the sweep, whatever the two clean-up flags are: in every
    [run_once] call of a watcher, and for every order in which the sweep
    may visit the candidates, the watch directory is after the sweep what
    it was before. *)
Theorem sweep_spares_watch_root now w e order d :
  reachable w →
  let c := after_loop now w e in
  let w1 := _prune_missing (seen_paths c) (self c) in
  Forall (λ x, x ∈ _processed_dirs w1) order →
  resolve d = resolve (watch_directory w1) →
  files (cleanup_in_order order w1 (world c)).2 !! d = files (world c) !! d.
Proof.
  intros Hreach c w1 Horder Hd. unfold resolve in Hd. subst d.
  unfold cleanup_in_order. case_match; [done|]. apply sweep_all_keeps_root.
  eapply Forall_impl; [exact Horder|]. intros x Hx.
  apply (after_loop_candidates_in_watch now w e); [|exact Hx].
  by apply reachable_candidates_in_watch.
Qed.

(** ** Recursive deletion needs both flags *)

Lemma cleanup_disabled order w e :
  cleanup_empty_source_dirs w = false →
  cleanup_processed_source_dirs w = false →
  cleanup_in_order order w e = (w, e).
Proof. intros Hempty Hprocessed. unfold cleanup_in_order. by rw Hempty Hprocessed. Qed.

(** Without the processed mode, a step of the sweep removes no regular
    file. *)
Lemma sweep_keeps_files root w e d q n :
  cleanup_processed_source_dirs w = false →
  files e !! q = Some n → kind n = RegularFile →
  files (sweep root (w, e) d).2 !! q = Some n.
Proof.
  intros Hflag Hq Hkind.
  destruct (sweep_changes root w e d) as [->|(_ & _ & Hrm)]; [done|].
  apply remove_directory_returns in Hrm
    as [->|[(? & _)|(_ & _ & Hit & ->)]]; [done|congruence|].
  rw lookup_delete_ne //. intros ->.
  apply iterdir_is_dir, is_dir_spec in Hit as (n' & ? & ?). congruence.
Qed.

Lemma cleanup_keeps_files order w e q n :
  cleanup_processed_source_dirs w = false →
  files e !! q = Some n → kind n = RegularFile →
  files (cleanup_in_order order w e).2 !! q = Some n.
Proof.
  unfold cleanup_in_order. case_match; [done|]. clear. revert w e.
  induction order as [|d order IH]; intros w e Hflag Hq Hkind; [done|].
  pose proof (sweep_keeps_files (resolve (watch_directory w)) w e d q n Hflag Hq Hkind)
    as Hstep.
  destruct (sweep_tracking (resolve (watch_directory w)) w e d)
    as ((_ & _ & Hdir & _ & _ & _ & Hflag') & _).
  change (foldl ?f (w, e) (d :: order)) with (foldl f (f (w, e) d) order).
  destruct (sweep _ (w, e) d) as [w1 e1]. simpl in *.
  rw -Hdir. apply IH; [congruence|done..].
Qed.

(** C5: the recursive mode of the watcher is the conjunction of the two
    settings.  Unless both are set, the [try] block of the sweep removes at
    most one directory, and only one without entries, so that the sweep
    removes no regular file; and when [cleanup_empty_source_dirs] is not
    set, as when [cleanup_processed_source_dirs] alone is, the sweep
    changes nothing at all. *)
Theorem recursive_cleanup_needs_both_flags s callback w0 w e order :
  init s callback = Some w0 →
  same_config w0 w →
  let both := SettingStore.cleanup_empty_source_dirs s
              && SettingStore.cleanup_processed_source_dirs s in
  cleanup_processed_source_dirs w = both ∧
  (both = false →
   (∀ d e', remove_directory w e d = Returns e' →
            e' = e ∨
            iterdir (files e) d = Returns [] ∧ files e' = delete d (files e)) ∧
   (∀ q n, files e !! q = Some n → kind n = RegularFile →
           files (cleanup_in_order order w e).2 !! q = Some n)) ∧
  (SettingStore.cleanup_empty_source_dirs s = false →
   cleanup_in_order order w e = (w, e)).
Proof.
  intros Hinit (_ & _ & _ & _ & _ & Hempty & Hprocessed). cbv zeta.
  unfold init in Hinit. case_match; [|done]. injection Hinit as <-.
  simpl in *. split; [done|]. split.
  - intros Hboth. rw Hboth in Hprocessed. split.
    + intros d e' [->|[(? & _)|(_ & _ & ? & ?)]]%remove_directory_returns;
        [by left|congruence|by right].
    + intros q n. by apply cleanup_keeps_files.
  - intros Hoff. rw Hoff /= in Hprocessed. rw Hoff in Hempty.
    by apply cleanup_disabled.
Qed.

(** ** What the sweep keeps in the candidate set *)

Lemma sweep_all_candidates_other root order w e d :
  d ∉ order →
  (d ∈ _processed_dirs (foldl (sweep root) (w, e) order).1 ↔ d ∈ _processed_dirs w).
Proof.
  revert w e. induction order as [|d0 order IH]; intros w e Hd; [done|].
  apply not_elem_of_cons in Hd as [Hne Hd].
  pose proof (sweep_candidates root w e d0) as Hc.
  change (foldl ?f (w, e) (d0 :: order)) with (foldl f (f (w, e) d0) order).
  destruct (sweep root (w, e) d0) as [w1 e1]. simpl in *.
  rw IH // Hc. case_match; set_solver.
Qed.

(** C7 (as amended): with both modes off the sweep leaves the candidate
    set as it is.  Otherwise a candidate is still in the set at the end of
    the sweep exactly when, at its turn, it exists and either is the watch
    directory, or holds a file matching the mask, or cannot be removed
    because of an [OSError]; a candidate that no longer exists is dropped,
    and so is one that was removed or was found not to be empty. *)
Theorem sweep_retains order w e :
  (cleanup_empty_source_dirs w = false →
   cleanup_processed_source_dirs w = false →
   cleanup_in_order order w e = (w, e)) ∧
  (cleanup_empty_source_dirs w = true ∨ cleanup_processed_source_dirs w = true →
   ∀ l1 d l2,
     order = l1 ++ d :: l2 → d ∉ l1 → d ∉ l2 →
     let root := resolve (watch_directory w) in
     let w1 := (foldl (sweep root) (w, e) l1).1 in
     let e1 := (foldl (sweep root) (w, e) l1).2 in
     d ∈ _processed_dirs (cleanup_in_order order w e).1 ↔
     d ∈ _processed_dirs w ∧
     path_exists (files e1) d = true ∧
     (resolve d = root ∨
      _has_masked_files w1 (files e1) d = true ∨
      remove_directory w1 e1 d = OSError)).
Proof.
  split; [apply cleanup_disabled|].
  intros Hon l1 d l2 -> Hl1 Hl2. cbv zeta.
  unfold cleanup_in_order. case_match; [destruct Hon as [Hon|Hon]; by rw Hon ?andb_false_r in H0|].
  set (root := resolve (watch_directory w)).
  rw foldl_app. change (foldl ?f ?a (d :: l2)) with (foldl f (f a d) l2).
  pose proof (sweep_all_candidates_other root l1 w e d Hl1) as Hbefore.
  destruct (foldl (sweep root) (w, e) l1) as [w1 e1]. cbn [fst snd] in *.
  pose proof (sweep_candidates root w1 e1 d) as Hc.
  pose proof (sweep_all_candidates_other root l2) as Hafter.
  destruct (sweep root (w1, e1) d) as [w2 e2]. cbn [fst snd] in *.
  rw Hafter // Hc -Hbefore. unfold retained.
  destruct (path_exists (files e1) d); simpl; [|set_solver].
  destruct (decide (resolve d = root)) as [Hroot|Hroot].
  { rw bool_decide_eq_true_2 //=. naive_solver. }
  rw bool_decide_eq_false_2 //=.
  destruct (_has_masked_files w1 (files e1) d); simpl; [naive_solver|].
  destruct (remove_directory w1 e1 d); [set_solver|naive_solver].
Qed.

(** ** Settling *)

(** No time has passed between a reading and itself. *)
Lemma lt_int_elapsed_same (t : Monotonic) (n : Z) :
  lt_int (elapsed t t) n = (0 <? n)%Z.
Proof.
  unfold elapsed, to_float.
  destruct (significand t) as [|m]; [by destruct (negative t)|].
  unfold SFsub. by rw Z.sub_diag.
Qed.

(** The outcome of a visit that gets as far as the settle test. *)
Lemma visit_unsettled now c p state :
  stat (files (world c)) p = Returns state →
  _attempted (self c) !! p ≠ Some state →
  lt_int (elapsed now (first_sight now (self c) p state).1)
         (settle_seconds (self c)) = true →
  visit now c p =
  {| self := (first_sight now (self c) p state).2; world := world c;
     processed := processed c; seen_paths := {[p]} ∪ seen_paths c |}.
Proof.
  intros Hstat Hatt Hlt. unfold visit. rw Hstat decide_False //.
  destruct (first_sight_rest now (self c) p state) as ((_ & _ & _ & _ & Hs & _) & _).
  destruct (first_sight now (self c) p state) as [first_seen w]. simpl in *.
  by rw Hs Hlt.
Qed.

Lemma visit_settled now c p state :
  stat (files (world c)) p = Returns state →
  _attempted (self c) !! p ≠ Some state →
  lt_int (elapsed now (first_sight now (self c) p state).1)
         (settle_seconds (self c)) = false →
  invoked now c p.
Proof.
  intros Hstat Hatt Hle. apply invoked_processed.
  unfold visit. rw Hstat decide_False //.
  destruct (first_sight_rest now (self c) p state) as ((_ & _ & _ & _ & Hs & _) & _).
  destruct (first_sight now (self c) p state) as [first_seen w]. simpl in *.
  rw Hs Hle. by destruct (process w (world c) p state).
Qed.










Lemma first_sight_new now w p state :
  _pending w !! p = None → (first_sight now w p state).1 = now.
Proof. intros Hp. unfold first_sight. by rw Hp. Qed.




(** * Further properties of the watcher *)

(** ** The configuration *)

(** X1: every watcher between the public operations watches the directory of
    its settings, polls at least every second and never settles in negative
    time, and is in the recursive mode only when it is in the empty mode
    too; [run_once] leaves all of that as [__init__] made it. *)
Theorem reachable_configuration w :
  reachable w →
  SettingStore.watch_input_directory (settings w) = Some (watch_directory w) ∧
  (1 ≤ poll_interval w)%Z ∧
  (0 ≤ settle_seconds w)%Z ∧
  (SettingStore.watch_settle_seconds (settings w) ≤ settle_seconds w)%Z ∧
  (cleanup_processed_source_dirs w = true → cleanup_empty_source_dirs w = true) ∧
  ∀ now e, same_config w (run_once now w e).1.2.
Proof.
  intros Hreach.
  assert (SettingStore.watch_input_directory (settings w) = Some (watch_directory w) ∧
          (1 ≤ poll_interval w)%Z ∧ (0 ≤ settle_seconds w)%Z ∧
          (SettingStore.watch_settle_seconds (settings w) ≤ settle_seconds w)%Z ∧
          (cleanup_processed_source_dirs w = true →
           cleanup_empty_source_dirs w = true)) as (? & ? & ? & ? & ?).
  { induction Hreach as [s callback w Hinit|now w e _ IH].
    - unfold init in Hinit.
      destruct (SettingStore.watch_input_directory s) eqn:Hdir; [|done].
      injection Hinit as <-. simpl. split_and!; [done|lia..|].
      by intros [? _]%andb_prop.
    - by destruct (run_once_config now w e) as (-> & _ & -> & -> & -> & -> & ->). }
  split_and!; try done. intros now e. apply run_once_config.
Qed.

(** ** When a file is dispatched *)

(** X2: the visit of a file invokes the callback exactly when the status of the
    file can be read, the file has not been attempted in that state, and the
    float [now - first_seen] is not less than the settle duration. *)
Theorem invoked_iff now c p :
  invoked now c p ↔
  ∃ state,
    stat (files (world c)) p = Returns state ∧
    _attempted (self c) !! p ≠ Some state ∧
    lt_int (elapsed now (first_sight now (self c) p state).1)
           (settle_seconds (self c)) = false.
Proof.
  split; [|intros (state & ? & ? & ?); by eapply visit_settled].
  rw invoked_processed. unfold visit.
  destruct (stat (files (world c)) p) as [state|]; [|simpl; lia].
  case_decide; [simpl; lia|]. intros Hcount. exists state.
  split; [done|]. split; [done|].
  destruct (first_sight_rest now (self c) p state) as ((_ & _ & _ & _ & Hs & _) & _).
  destruct (first_sight now (self c) p state) as [first_seen w]. simpl in *.
  rw -Hs. destruct (lt_int _ _); [simpl in Hcount; lia|done].
Qed.

(** X3: a visit that does not invoke the callback leaves the world, the count,
    the attempted files and the candidates alone; of the pending files only
    the visited one can change. *)
Theorem visit_without_dispatch now c p :
  ¬ invoked now c p →
  world (visit now c p) = world c ∧
  processed (visit now c p) = processed c ∧
  _attempted (self (visit now c p)) = _attempted (self c) ∧
  _processed_dirs (self (visit now c p)) = _processed_dirs (self c) ∧
  ∀ q, q ≠ p → _pending (self (visit now c p)) !! q = _pending (self c) !! q.
Proof.
  intros Hnot.
  destruct (visit_calls now c p) as [[? _]|[Hworld Hcount]]; [done|].
  split; [done|]. split; [done|].
  split_and!; [..|intros q; apply visit_pending_other];
    revert Hcount; unfold visit;
    (destruct (stat (files (world c)) p) as [state|]; [|done]);
    (case_decide; [done|]);
    destruct (first_sight_rest now (self c) p state) as (_ & Hatt & Hdirs);
    destruct (first_sight now (self c) p state) as [first_seen w]; simpl in *;
    (destruct (lt_int _ _); [done|]);
    destruct (process w (world c) p state); simpl; lia.
Qed.

(** The calls of a run of the loop are for paths of the run, in their
    order and at most one for each, with the settings of the watcher. *)
Lemma run_loop_calls_sublist now l c :
  ∃ ts, calls (world (run_loop now l c)) = calls (world c) ++ ts ∧
        processed (run_loop now l c) = (processed c + length ts)%nat ∧
        source <$> ts `sublist_of` l ∧
        Forall (λ t, target_settings t = settings (self c)) ts.
Proof.
  revert c. induction l as [|p l IH]; intros c.
  { exists []. rw app_nil_r /=. split; [done|]. split; [lia|done]. }
  destruct (IH (visit now c p)) as (ts & Hts & Hn & Hsub & Hset).
  destruct (visit_config now c p) as (Hs & _). rw Hs in Hset.
  change (run_loop now (p :: l) c) with (run_loop now l (visit now c p)).
  destruct (visit_calls now c p) as [[Hcall Hp]|[Hw Hp]].
  - exists (target_of (self c) p :: ts). rw Hts Hn Hcall Hp -app_assoc /=.
    split; [done|]. split; [lia|]. split; [by apply sublist_skip|].
    by apply Forall_cons.
  - exists ts. rw Hts Hn Hw Hp. split; [done|]. split; [done|].
    split; [by apply sublist_cons|done].
Qed.

(** X4: a [run_once] call returns the number of times it has invoked the
    callback.  The calls are for discovered paths only, in the order of
    discovery and at most one for each path, with the settings of the
    watcher; so the count is at most the number of discovered files. *)
Theorem run_once_calls now w e :
  ∃ ts, calls (run_once now w e).2 = calls e ++ ts ∧
        (run_once now w e).1.1 = length ts ∧
        source <$> ts `sublist_of` _iter_files w (files e) ∧
        NoDup (source <$> ts) ∧
        Forall (λ t, target_settings t = settings w) ts ∧
        ((run_once now w e).1.1 ≤ length (_iter_files w (files e)))%nat.
Proof.
  destruct (run_loop_calls_sublist now (_iter_files w (files e)) (start w e))
    as (ts & Hts & Hn & Hsub & Hset).
  exists ts. rw run_once_world run_once_processed after_loop_start.
  split; [done|]. split; [done|]. split; [done|].
  split; [eapply sublist_NoDup; [apply NoDup_iter_files|done]|].
  split; [done|]. rw Hn /=. apply sublist_length in Hsub.
  by rw length_fmap in Hsub.
Qed.

(** ** Settling starts again when a file changes *)

(** X5: a pending file that is found in another state than the pending one,
    and has not been attempted in that state, is not dispatched by a watcher
    with a settle duration above 0: it is pending anew, from now on. *)
Theorem changed_file_settles_anew now w e l1 p l2 state state0 t0 :
  _iter_files w (files e) = l1 ++ p :: l2 →
  stat (files (world (run_loop now l1 (start w e)))) p = Returns state →
  _pending w !! p = Some (state0, t0) →
  state0 ≠ state →
  _attempted w !! p ≠ Some state →
  (0 < settle_seconds w)%Z →
  ¬ invoked now (run_loop now l1 (start w e)) p ∧
  _pending (run_once now w e).1.2 !! p = Some (state, now).
Proof.
  intros Hfiles Hstat Hpen Hne Hatt Hpos.
  assert (p ∈ _iter_files w (files e)) as Hin by (rw Hfiles; set_solver).
  pose proof (NoDup_iter_files w (files e)) as Hnodup. rw Hfiles in Hnodup.
  apply NoDup_app in Hnodup as (_ & Hl1 & [Hl2 _]%NoDup_cons).
  assert (p ∉ l1) as Hl1' by (intros Hp; apply (Hl1 _ Hp); set_solver).
  set (c := run_loop now l1 (start w e)) in *.
  assert (_pending (self c) !! p = Some (state0, t0)) as Hpen'
    by by rw run_loop_pending_other.
  assert (_attempted (self c) !! p ≠ Some state) as Hatt'
    by by rw run_loop_attempted_other.
  assert ((first_sight now (self c) p state).1 = now) as Hfirst.
  { unfold first_sight. by rw Hpen' decide_False. }
  assert (lt_int (elapsed now (first_sight now (self c) p state).1)
                 (settle_seconds (self c)) = true) as Hlt.
  { destruct (run_loop_config now l1 (start w e)) as (_ & _ & _ & _ & Hs & _).
    fold c in Hs. rw Hfirst Hs lt_int_elapsed_same. by apply Z.ltb_lt. }
  pose proof (visit_unsettled now c p state Hstat Hatt' Hlt) as Hvisit.
  split.
  { rw invoked_processed Hvisit /=. lia. }
  rw run_once_pending decide_True // after_loop_start Hfiles.
  rw (run_loop_app now l1 (p :: l2)).
  change (run_loop now (p :: l2) ?c) with (run_loop now l2 (visit now c p)).
  rw run_loop_pending_other //. fold c. rw Hvisit /= first_sight_pending.
  by rw Hfirst.
Qed.

(** ** A file that comes back *)

(** X6: a path that a cycle does not discover is new to the next cycles: when a
    file is found at it again, in whatever state, its settle time starts at
    the time of that cycle, and a watcher with the settle duration 0
    dispatches it at once. *)
Theorem returning_file_is_new now1 w e1 now2 e2 l1 p l2 state :
  let w1 := (run_once now1 w e1).1.2 in
  let c2 := run_loop now2 l1 (start w1 e2) in
  p ∉ _iter_files w (files e1) →
  _iter_files w1 (files e2) = l1 ++ p :: l2 →
  stat (files (world c2)) p = Returns state →
  (first_sight now2 (self c2) p state).1 = now2 ∧
  (settle_seconds w = 0%Z → invoked now2 c2 p).
Proof.
  intros w1 c2 Hgone Hfiles Hstat.
  pose proof (NoDup_iter_files w1 (files e2)) as Hnodup. rw Hfiles in Hnodup.
  apply NoDup_app in Hnodup as (_ & Hl1 & _).
  assert (p ∉ l1) as Hl1' by (intros Hp; apply (Hl1 _ Hp); set_solver).
  assert (_pending (self c2) !! p = None) as Hpen.
  { unfold c2. rw run_loop_pending_other // run_once_pending. by rw decide_False. }
  assert (_attempted (self c2) !! p = None) as Hatt.
  { unfold c2. rw run_loop_attempted_other // run_once_attempted. by rw decide_False. }
  pose proof (first_sight_new now2 (self c2) p state Hpen) as Hfirst.
  split; [done|]. intros Hzero.
  apply (visit_settled now2 c2 p state); [done|by rw Hatt|]. rw Hfirst.
  destruct (run_loop_config now2 l1 (start w1 e2)) as (_ & _ & _ & _ & Hs2 & _).
  destruct (run_once_config now1 w e1) as (_ & _ & _ & _ & Hs & _).
  fold c2 in Hs2. fold w1 in Hs. simpl in Hs2.
  by rw Hs2 Hs Hzero lt_int_elapsed_same.
Qed.

(** ** What the sweep removes *)

(** A step of the sweep leaves a path alone or removes it, and removes it
    only from below a candidate that is not the watch directory and holds
    no matching file. *)
Lemma sweep_removes_below root w e d q :
  files (sweep root (w, e) d).2 !! q = files e !! q ∨
  files (sweep root (w, e) d).2 !! q = None ∧ d `prefix_of` q ∧
  resolve d ≠ root ∧ _has_masked_files w (files e) d = false.
Proof.
  destruct (sweep_changes root w e d) as [->|(Hne & Hm & Hrm)]; [by left|].
  apply remove_directory_returns in Hrm
    as [->|[(_ & Hrm)|(_ & _ & _ & ->)]]; [by left|..].
  - rw (rmtree_lookup _ _ _ q Hrm). case_decide; [by right|by left].
  - destruct (decide (q = d)) as [->|Hq].
    + right. by rw lookup_delete_eq.
    + left. by rw lookup_delete_ne.
Qed.

Lemma sweep_all_removes_below root order w e q :
  files (foldl (sweep root) (w, e) order).2 !! q ≠ files e !! q →
  files (foldl (sweep root) (w, e) order).2 !! q = None ∧
  ∃ d, d ∈ order ∧ d `prefix_of` q ∧ resolve d ≠ root.
Proof.
  revert w e. induction order as [|d order IH]; intros w e Hq; [done|].
  change (foldl ?f (w, e) (d :: order)) with (foldl f (f (w, e) d) order) in *.
  destruct (sweep_removes_below root w e d q) as [Hsame|(Hnone & Hdq & Hne & _)];
    destruct (sweep root (w, e) d) as [w1 e1]; cbn [fst snd] in *.
  - destruct (IH w1 e1) as (? & d' & ? & ?); [by rw Hsame|].
    split; [done|]. exists d'. split; [by right|done].
  - assert (files (foldl (sweep root) (w1, e1) order).2 !! q = None) as Hend.
    { apply eq_None_not_Some. intros [n Hn].
      apply sweep_all_only_removes in Hn. congruence. }
    split; [done|]. exists d. split; [by left|done].
Qed.

(** X7: whatever the state of the watcher and the order of the sweep, the sweep
    changes the filesystem only by removing paths, and only paths at or
    below a candidate of its list that is not the watch directory. *)
Theorem cleanup_removes_below_candidates order w e q :
  files (cleanup_in_order order w e).2 !! q ≠ files e !! q →
  files (cleanup_in_order order w e).2 !! q = None ∧
  ∃ d, d ∈ order ∧ d `prefix_of` q ∧ resolve d ≠ resolve (watch_directory w).
Proof.
  unfold cleanup_in_order. case_match; [done|]. apply sweep_all_removes_below.
Qed.

Lemma run_once_sweep now w e :
  let st := before_sweep now w e in
  (run_once now w e).1.2 = (_cleanup_processed_directories st.1 st.2).1 ∧
  (run_once now w e).2 = (_cleanup_processed_directories st.1 st.2).2.
Proof.
  unfold run_once, before_sweep. cbn [fst snd].
  by destruct (_cleanup_processed_directories _ _).
Qed.

(** X8: the sweep of a [run_once] call removes nothing outside the watch
    directory: a path that it changes lies strictly below the watch
    directory, and is gone. *)
Theorem run_once_removes_in_watch now w e q :
  reachable w →
  files (run_once now w e).2 !! q ≠ files (world (after_loop now w e)) !! q →
  files (run_once now w e).2 !! q = None ∧ is_below (watch_directory w) q.
Proof.
  intros Hreach%reachable_candidates_in_watch%(after_loop_candidates_in_watch now w e).
  destruct (run_loop_config now (_iter_files w (files e)) (start w e))
    as (_ & _ & Hdir & _). rw -after_loop_start in Hdir. simpl in Hdir.
  destruct (run_once_sweep now w e) as [_ ->].
  unfold before_sweep, _cleanup_processed_directories, cleanup_in_order.
  cbn [fst snd]. set (c := after_loop now w e) in *. set (w1 := _prune_missing _ _).
  case_match; [done|]. change (watch_directory w1) with (watch_directory (self c)).
  pose proof (sweep_all_removes_below (resolve (watch_directory (self c)))
                (elements (_processed_dirs w1)) w1 (world c) q) as Hsweep.
  destruct (foldl _ (w1, world c) _) as [w2 e2]. cbn [fst snd] in *.
  intros Hq. destruct (Hsweep Hq) as (Hnone & d & Hd%elem_of_elements & Hdq & Hne).
  split; [done|]. apply Hreach in Hd. rw -Hdir. unfold resolve in Hne. split.
  - by etrans.
  - intros ->. apply Hne. by apply (anti_symm prefix).
Qed.

(** X9: in the recursive mode a step of the sweep on a directory that is not
    the watch directory and holds no matching file removes the whole tree,
    whatever else it holds, drops the candidate and prints one notice. *)
Theorem sweep_removes_tree root w e d :
  cleanup_processed_source_dirs w = true →
  is_dir (files e) d = true →
  resolve d ≠ root →
  _has_masked_files w (files e) d = false →
  (∀ q, files (sweep root (w, e) d).2 !! q =
        if decide (d `prefix_of` q) then None else files e !! q) ∧
  _processed_dirs (sweep root (w, e) d).1 = _processed_dirs w ∖ {[d]} ∧
  notices (sweep root (w, e) d).2 = notices e ++ [DeletedProcessed d] ∧
  calls (sweep root (w, e) d).2 = calls e.
Proof.
  intros Hflag Hdir Hne Hm.
  assert (path_exists (files e) d = true) as Hex.
  { apply is_dir_spec in Hdir as (n & Hn & _). unfold path_exists.
    rw bool_decide_eq_true Hn. by eexists. }
  unfold sweep, remove_directory. rw Hex /= decide_False // Hm Hflag.
  destruct (rmtree (files e) d) as [fs|] eqn:Hrm;
    [|unfold rmtree in Hrm; by rw Hdir in Hrm].
  simpl. split; [|done]. intros q. by apply rmtree_lookup.
Qed.

Lemma iterdir_nil fs d :
  iterdir fs d = Returns [] ↔
  is_dir fs d = true ∧ ∀ p, is_child d p → fs !! p = None.
Proof.
  unfold iterdir. destruct (is_dir fs d); [|naive_solver].
  split.
  - intros [= Hnil]. split; [done|]. intros p Hp.
    apply eq_None_not_Some. intros [n Hn].
    assert (p ∈ filter (is_child d) (map_to_list fs).*1) as Hin.
    { apply list_elem_of_filter. split; [done|].
      apply list_elem_of_fmap. exists (p, n). split; [done|].
      by apply elem_of_map_to_list. }
    rw Hnil in Hin. by apply elem_of_nil in Hin.
  - intros [_ Hnone]. f_equal.
    destruct (filter (is_child d) (map_to_list fs).*1) as [|p l] eqn:Hl; [done|].
    assert (p ∈ filter (is_child d) (map_to_list fs).*1) as Hin
      by (rw Hl; by left).
    apply list_elem_of_filter in Hin as [Hp ([p' n] & -> & Hin)%list_elem_of_fmap].
    apply elem_of_map_to_list in Hin. rw (Hnone _ Hp) in Hin. done.
Qed.

(** X10: in the empty mode a step of the sweep on a directory that is not the
    watch directory and holds no matching file drops the candidate; it
    removes the directory, and nothing else, and prints one notice, when the
    directory has no entry, and leaves the world as it is when it has
    one. *)
Theorem sweep_removes_empty_directory root w e d :
  cleanup_processed_source_dirs w = false →
  cleanup_empty_source_dirs w = true →
  is_dir (files e) d = true →
  resolve d ≠ root →
  _has_masked_files w (files e) d = false →
  _processed_dirs (sweep root (w, e) d).1 = _processed_dirs w ∖ {[d]} ∧
  ((∀ p, is_child d p → files e !! p = None) →
   files (sweep root (w, e) d).2 = delete d (files e) ∧
   notices (sweep root (w, e) d).2 = notices e ++ [DeletedEmpty d]) ∧
  ((∃ p, is_child d p ∧ is_Some (files e !! p)) →
   (sweep root (w, e) d).2 = e).
Proof.
  intros Hflag Hempty Hdir Hne Hm.
  assert (path_exists (files e) d = true) as Hex.
  { apply is_dir_spec in Hdir as (n & Hn & _). unfold path_exists.
    rw bool_decide_eq_true Hn. by eexists. }
  unfold sweep, remove_directory, rmdir. rw Hex /= decide_False // Hm Hflag Hempty.
  destruct (iterdir (files e) d) as [[|p l]|] eqn:Hit.
  - simpl. split; [done|]. split; [done|].
    intros (p & Hp & Hsome). apply iterdir_nil in Hit as [_ Hnone].
    rw (Hnone _ Hp) in Hsome. by destruct Hsome.
  - simpl. split; [done|]. split; [|done].
    intros Hnone. assert (iterdir (files e) d = Returns []) as Hnil
      by by apply iterdir_nil.
    congruence.
  - unfold iterdir in Hit. by rw Hdir in Hit.
Qed.

(** ** The notices of the sweep *)

Lemma sweep_notices root w e d :
  notices (sweep root (w, e) d).2 = notices e ∨
  ∃ n, notices (sweep root (w, e) d).2 = notices e ++ [n] ∧
       notice_directory n = d ∧ is_Some (files e !! d) ∧
       files (sweep root (w, e) d).2 !! d = None.
Proof.
  destruct (sweep_changes root w e d) as [->|(_ & _ & Hrm)]; [by left|].
  revert Hrm. generalize (sweep root (w, e) d).2. intros e'.
  unfold remove_directory.
  destruct (cleanup_processed_source_dirs w).
  - destruct (rmtree (files e) d) as [fs|] eqn:Hrm; [|done]. intros [= <-].
    right. exists (DeletedProcessed d). simpl. split; [done|]. split; [done|].
    split.
    + apply rmtree_is_dir, is_dir_spec in Hrm as (n & -> & _). by eexists.
    + rw (rmtree_lookup _ _ _ d Hrm). by rw decide_True.
  - destruct (cleanup_empty_source_dirs w); [|intros [= <-]; by left].
    destruct (iterdir (files e) d) as [[|??]|] eqn:Hit;
      [|intros [= <-]; by left|done].
    destruct (rmdir (files e) d) as [fs|] eqn:Hrm; [|done]. intros [= <-].
    apply rmdir_delete in Hrm as [-> _].
    right. exists (DeletedEmpty d). simpl. split; [done|]. split; [done|].
    split.
    + apply iterdir_is_dir, is_dir_spec in Hit as (n & -> & _). by eexists.
    + apply lookup_delete_eq.
Qed.

Lemma sweep_all_notices root order w e :
  ∃ ns, notices (foldl (sweep root) (w, e) order).2 = notices e ++ ns ∧
        Forall (λ n, notice_directory n ∈ order ∧
                     is_Some (files e !! notice_directory n) ∧
                     files (foldl (sweep root) (w, e) order).2
                       !! notice_directory n = None) ns.
Proof.
  revert w e. induction order as [|d order IH]; intros w e.
  { exists []. by rw app_nil_r. }
  change (foldl ?f (w, e) (d :: order)) with (foldl f (f (w, e) d) order).
  pose proof (sweep_notices root w e d) as Hstep.
  pose proof (λ q n, sweep_only_removes root w e d q n) as Honly.
  destruct (sweep root (w, e) d) as [w1 e1]. cbn [fst snd] in *.
  destruct (IH w1 e1) as (ns & Hns & Hall).
  assert (Forall (λ n, notice_directory n ∈ d :: order ∧
                       is_Some (files e !! notice_directory n) ∧
                       files (foldl (sweep root) (w1, e1) order).2
                         !! notice_directory n = None) ns) as Hall'.
  { eapply Forall_impl; [exact Hall|]. intros n (? & [x Hx] & ?).
    split; [by right|]. split; [|done]. exists x. by apply Honly. }
  destruct Hstep as [Hsame|(n & Hn & <- & Hsome & Hnone)].
  - exists ns. by rw Hns Hsame.
  - exists (n :: ns). rw Hns Hn -app_assoc. split; [done|].
    apply Forall_cons. split; [|done]. split; [by left|]. split; [done|].
    apply eq_None_not_Some. intros [x Hx].
    apply sweep_all_only_removes in Hx. congruence.
Qed.

(** X11: the sweep prints a notice only for a directory that it has removed:
    every notice that it adds names a candidate of its list that existed
    when the sweep began and is gone when it ends. *)
Theorem cleanup_notices order w e :
  ∃ ns, notices (cleanup_in_order order w e).2 = notices e ++ ns ∧
        Forall (λ n, notice_directory n ∈ order ∧
                     is_Some (files e !! notice_directory n) ∧
                     files (cleanup_in_order order w e).2
                       !! notice_directory n = None) ns.
Proof.
  unfold cleanup_in_order. case_match; [|apply sweep_all_notices].
  exists []. by rw app_nil_r.
Qed.

(** ** The candidates when the clean-up is off *)

(** X12: with both clean-up modes off, [run_once] removes nothing itself, and
    never forgets a candidate: the set of candidates only grows, by the
    parent of every file that a callback moves away. *)
Theorem disabled_cleanup_accumulates now w e :
  cleanup_empty_source_dirs w = false →
  cleanup_processed_source_dirs w = false →
  (run_once now w e).2 = world (after_loop now w e) ∧
  _processed_dirs (run_once now w e).1.2
  = _processed_dirs (self (after_loop now w e)) ∧
  _processed_dirs w ⊆ _processed_dirs (run_once now w e).1.2.
Proof.
  intros Hempty Hprocessed.
  destruct (run_once_sweep now w e) as [-> ->].
  unfold before_sweep, _cleanup_processed_directories. cbn [fst snd].
  destruct (run_loop_config now (_iter_files w (files e)) (start w e))
    as (_ & _ & _ & _ & _ & He & Hp). rw -after_loop_start in He, Hp.
  simpl in He, Hp.
  rw cleanup_disabled; [|simpl; congruence..]. cbn [fst snd].
  split; [done|]. split; [done|].
  apply (run_loop_candidates_subseteq now _ (start w e)).
Qed.

(** ** The size of the tracking maps *)

(** X13: when [run_once] returns, neither tracking map has more entries than
    there were discovered files. *)
Theorem tracking_size_bounded now w e :
  (size (_pending (run_once now w e).1.2) ≤ length (_iter_files w (files e)))%nat ∧
  (size (_attempted (run_once now w e).1.2) ≤ length (_iter_files w (files e)))%nat.
Proof.
  pose proof (NoDup_iter_files w (files e)) as Hnodup.
  rw -(size_list_to_set (C := gset Path) _ Hnodup).
  split; rw -size_dom; apply subseteq_size; intros p [x Hx]%elem_of_dom;
    apply elem_of_list_to_set.
  - rw run_once_pending in Hx. by case_decide.
  - rw run_once_attempted in Hx. by case_decide.
Qed.

(** ** A cycle in which nothing has changed *)

Lemma run_loop_quiet now l c :
  (∀ p, p ∈ l → ∃ state, stat (files (world c)) p = Returns state ∧
                         _attempted (self c) !! p = Some state) →
  self (run_loop now l c) = self c ∧ world (run_loop now l c) = world c ∧
  processed (run_loop now l c) = processed c.
Proof.
  revert c. induction l as [|p l IH]; intros c Hall; [done|].
  destruct (Hall p) as (state & Hstat & Hatt); [by left|].
  destruct (visit_attempted_same now c p state Hstat Hatt) as (Hself & Hworld & Hcount).
  change (run_loop now (p :: l) c) with (run_loop now l (visit now c p)).
  destruct (IH (visit now c p)) as (-> & -> & ->); [|done].
  intros q Hq. rw Hself Hworld. apply Hall. by right.
Qed.

(** X14: when every discovered file has been attempted in its present state,
    nothing else is tracked and there is no candidate, [run_once] returns 0
    and leaves the watcher and the world exactly as they are. *)
Theorem quiet_cycle now w e :
  (∀ p, p ∈ _iter_files w (files e) →
        ∃ state, stat (files e) p = Returns state ∧ _attempted w !! p = Some state) →
  (∀ p, is_Some (_pending w !! p) ∨ is_Some (_attempted w !! p) →
        p ∈ _iter_files w (files e)) →
  _processed_dirs w = ∅ →
  run_once now w e = (O, w, e).
Proof.
  intros Hall Htracked Hdirs.
  destruct (run_loop_quiet now (_iter_files w (files e)) (start w e) Hall)
    as (Hself & Hworld & Hcount).
  unfold run_once, _cleanup_processed_directories.
  rw after_loop_start Hself Hworld Hcount run_loop_seen /=.
  assert (_prune_missing (list_to_set (_iter_files w (files e)) ∪ ∅) w = w) as ->.
  { unfold _prune_missing, set_attempted, set_pending. simpl.
    rw !map_filter_id.
    - by destruct w.
    - intros p x Hp. simpl. apply elem_of_union_l, elem_of_list_to_set, Htracked.
      right. by exists x.
    - intros p x Hp. simpl. apply elem_of_union_l, elem_of_list_to_set, Htracked.
      left. by exists x. }
  rw Hdirs elements_empty. unfold cleanup_in_order.
  by destruct (negb _ && negb _).
Qed.

(** ** Where the candidates come from *)

Lemma visit_calls_subseteq now c p t :
  t ∈ calls (world c) → t ∈ calls (world (visit now c p)).
Proof.
  destruct (visit_calls now c p) as [[-> _]|[-> _]]; [|done].
  intros ?. apply elem_of_app. by left.
Qed.

Lemma run_loop_calls_subseteq now l c t :
  t ∈ calls (world c) → t ∈ calls (world (run_loop now l c)).
Proof.
  revert c. induction l as [|p l IH]; intros c Ht; [done|].
  by apply (IH (visit now c p)), visit_calls_subseteq.
Qed.

Lemma visit_candidates_origin now c p d :
  d ∈ _processed_dirs (self (visit now c p)) →
  d ∈ _processed_dirs (self c) ∨
  d = parent p ∧ target_of (self c) p ∈ calls (world (visit now c p)) ∧
  path_exists (files (world (visit now c p))) p = false.
Proof.
  destruct (visit_calls now c p) as [[Hcall _]|[Hworld Hcount]].
  - destruct (stat (files (world c)) p) as [state|] eqn:Hstat.
    + destruct (visit_invoked now c p state Hstat Hcall) as (_ & _ & _ & _ & ->).
      destruct (path_exists _ p); [by left|].
      intros [->%elem_of_singleton|?]%elem_of_union; [|by left].
      right. split; [done|]. split; [|done]. rw Hcall. set_solver.
    + destruct (visit_stat_error now c p Hstat) as (-> & _). by left.
  - revert Hcount. unfold visit.
    destruct (stat (files (world c)) p) as [state|]; [|by left].
    case_decide; [by left|].
    destruct (first_sight_rest now (self c) p state) as (_ & _ & Hdirs).
    destruct (first_sight now (self c) p state) as [first_seen w]. simpl in *.
    destruct (lt_int _ _); [rw /= Hdirs; by left|].
    destruct (process w (world c) p state). simpl. lia.
Qed.

(** X15: a directory becomes a candidate only through a dispatch: a candidate
    that the loop of [run_once] adds is the parent of a discovered path for
    which the callback has been invoked in this call. *)
Theorem candidates_from_dispatch now w e d :
  d ∈ _processed_dirs (self (after_loop now w e)) →
  d ∈ _processed_dirs w ∨
  ∃ p, p ∈ _iter_files w (files e) ∧ d = parent p ∧
       target_of w p ∈ calls (world (after_loop now w e)).
Proof.
  rw after_loop_start. generalize (_iter_files w (files e)). intros l.
  change w with (self (start w e)) at 2 3. generalize (start w e). clear.
  intros c. revert c. induction l as [|p l IH]; intros c Hd; [by left|].
  change (run_loop now (p :: l) c) with (run_loop now l (visit now c p)) in *.
  destruct (IH (visit now c p) Hd) as [Hd'|(q & Hq & -> & Hcall)].
  - apply visit_candidates_origin in Hd' as [?|(-> & Hcall & _)]; [by left|].
    right. exists p. split; [by left|]. split; [done|].
    by apply run_loop_calls_subseteq.
  - right. exists q. split; [by right|]. split; [done|].
    destruct (visit_config now c p) as (Hs & _). unfold target_of in *.
    by rw -Hs.
Qed.

End Properties.

(** * The properties at work

    The scenarios of [tests/local/test_watcher.py], and an instance of each
    property above on a concrete filesystem. *)

#[local] Existing Instance by_name.

Example test_watcher__run_once_processes_file_once :
  (run_cycles [seconds 0; seconds 0] (file_watcher 0) (a_world one_file)).1.1 = [1; 0]%nat ∧
  source <$> calls (run_cycles [seconds 0; seconds 0] (file_watcher 0) (a_world one_file)).2
  = [show].
Proof. split; vm_compute; reflexivity. Qed.

Example test_watcher__waits_for_settle_time :
  (run_cycles [seconds 0; seconds 5; seconds 11] (file_watcher 10) (a_world one_file)).1.1
  = [0; 0; 1]%nat.
Proof. vm_compute. reflexivity. Qed.

Example test_watcher__cleanup_empty_source_dir_after_processed_move :
  let w := watching (watch_settings drop true 0 true false) unlink_source in
  (run_once (seconds 0) w (a_world one_release)).1.1 = 1%nat ∧
  path_exists (files (run_once (seconds 0) w (a_world one_release)).2) release = false.
Proof. split; vm_compute; reflexivity. Qed.

Example test_watcher__dangerous_cleanup_deletes_processed_dir_contents :
  let w := watching (watch_settings drop true 0 true true) unlink_source in
  (run_once (seconds 0) w (a_world full_release)).1.1 = 1%nat ∧
  path_exists (files (run_once (seconds 0) w (a_world full_release)).2) release = false ∧
  dom (files (run_once (seconds 0) w (a_world full_release)).2) = {[tmp; drop]}.
Proof. repeat split; vm_compute; reflexivity. Qed.

Example test_watcher__dangerous_cleanup_skips_folders_without_mask_matches :
  let w := watching (watch_settings drop false 0 true true) accept in
  (run_once (seconds 0) w (a_world no_media)).1.1 = 0%nat ∧
  files (run_once (seconds 0) w (a_world no_media)).2 = no_media.
Proof. split; vm_compute; reflexivity. Qed.

Example test_watcher__dangerous_cleanup_requires_empty_cleanup_flag :
  let w := watching (watch_settings drop true 0 false true) unlink_source in
  (run_once (seconds 0) w (a_world full_release)).1.1 = 1%nat ∧
  path_exists (files (run_once (seconds 0) w (a_world full_release)).2) release = true.
Proof. split; vm_compute; reflexivity. Qed.

Example test_watcher__missing_watch_directory :
  init (SettingStore.mk true None 1 0 false [] [] false false) accept = None.
Proof. reflexivity. Qed.

(** ** The sweep and a release of which a media file stays behind *)

(** The sweep does not spare every content of a candidate that holds a
    matching file: [release] is a candidate and holds [keep.mkv], and the
    sweep removes [extras] below it, which is a candidate of its own and
    holds no matching file. *)
Lemma sweep_removes_content_beside_media :
  let w := kept_sweep.1 in
  let e := kept_sweep.2 in
  release ∈ _processed_dirs w ∧
  _has_masked_files w (files e) release = true ∧
  ¬ (∀ q, release `prefix_of` q →
          files (_cleanup_processed_directories w e).2 !! q = files e !! q).
Proof.
  intros w e. split; [compute_done|]. split; [compute_done|].
  intros Hall. specialize (Hall (entry extras "show.s01e02.nfo")).
  assert (release `prefix_of` entry extras "show.s01e02.nfo") as Hpre
    by by eexists.
  apply Hall in Hpre. vm_compute in Hpre. discriminate Hpre.
Qed.

(** [release] and [keep.mkv] are spared and [release] stays a candidate;
    [extras], a candidate of its own that holds no matching file, goes with
    all that is in it. *)
Lemma sweep_spares_media_witness :
  let w := kept_sweep.1 in
  let e := kept_sweep.2 in
  let order := elements (_processed_dirs w) in
  _has_masked_files w (files e) release = true ∧
  removable order w e release extras ∧
  files (cleanup_in_order order w e).2 !! release = files e !! release ∧
  files (cleanup_in_order order w e).2 !! entry release "keep.mkv"
  = Some (a_file 4 100) ∧
  files (cleanup_in_order order w e).2 !! entry extras "show.s01e02.nfo" = None ∧
  release ∈ _processed_dirs (cleanup_in_order order w e).1.
Proof.
  intros w e order.
  assert (_has_masked_files w (files e) release = true) as Hm by compute_done.
  assert (cleanup_processed_source_dirs w = true) as Hmode
    by (vm_compute; reflexivity).
  assert (extras ∈ order) as Hin by (apply elem_of_elements; compute_done).
  assert (is_below release extras) as Hbelow by (split; [by eexists|done]).
  assert (is_dir (files e) extras = true) as Hdir by (vm_compute; reflexivity).
  assert (resolve extras ≠ resolve (watch_directory w)) as Hroot
    by (vm_compute; discriminate).
  assert (_has_masked_files w (files e) extras = false) as Hm'
    by (vm_compute; reflexivity).
  assert (removable order w e release extras) as Hrm
    by exact (conj Hin (conj Hbelow (conj Hdir (conj Hroot Hm')))).
  assert (extras `prefix_of` entry extras "show.s01e02.nfo") as Hpre by by eexists.
  assert (path_exists (files e) release = true) as Hex by (vm_compute; reflexivity).
  assert (release ∈ _processed_dirs w) as Hcand by compute_done.
  assert (release `prefix_of` entry release "keep.mkv") as Hkeep by by eexists.
  assert (holds_media (SettingStore.mask (settings w)) (files e)
            (entry release "keep.mkv")) as Hmedia.
  { exists (entry release "keep.mkv"). split; [done|].
    exists (a_file 4 100). split; [vm_compute; reflexivity|].
    split; [reflexivity|]. vm_compute. exact I. }
  destruct (sweep_spares_media order w e release Hm)
    as (Hd & Hq & _ & Hgone & _ & Hc).
  refine (conj Hm (conj Hrm (conj Hd (conj _ (conj _ (Hc Hex Hcand)))))).
  - etrans; [exact (Hq _ Hkeep Hmedia)|]. vm_compute. reflexivity.
  - exact (Hgone Hmode extras _ Hrm Hpre).
Defined.

(** A candidate that is evaluated without any failure and is left alone
    is not always dropped from the set: [release] exists, nothing raises,
    the sweep leaves it in place, and it is still a candidate afterwards. *)
Lemma sweep_retains_spared_candidate :
  let w := kept_sweep.1 in
  let e := kept_sweep.2 in
  let w' := (_cleanup_processed_directories w e).1 in
  let e' := (_cleanup_processed_directories w e).2 in
  release ∈ _processed_dirs w ∧
  ¬ (path_exists (files e) release = true →
     remove_directory w e release ≠ OSError →
     files e' !! release = files e !! release →
     release ∉ _processed_dirs w').
Proof.
  intros w e w' e'. split; [compute_done|]. intros Hdrop. apply Hdrop.
  - compute_done.
  - vm_compute. discriminate.
  - vm_compute. reflexivity.
  - compute_done.
Qed.

(** [release] is retained, for it holds [keep.mkv]. *)
Lemma sweep_retains_witness :
  let w := kept_sweep.1 in
  let e := kept_sweep.2 in
  release ∈ _processed_dirs (cleanup_in_order [release; extras] w e).1 ↔
  release ∈ _processed_dirs w ∧
  path_exists (files e) release = true ∧
  (resolve release = resolve (watch_directory w) ∨
   _has_masked_files w (files e) release = true ∨
   remove_directory w e release = OSError).
Proof.
  intros w e.
  apply (proj2 (sweep_retains [release; extras] w e) (or_introl eq_refl)
           [] release [extras] eq_refl).
  - apply not_elem_of_nil.
  - compute_done.
Defined.

(** ** A file in the watch directory itself *)

(** The file is moved out of [tmp], which is watched: [tmp] becomes a
    candidate and the sweep leaves it in place. *)
Lemma sweep_spares_watch_root_witness :
  let w := watching (watch_settings tmp false 0 true true) unlink_source in
  let e := a_world one_file in
  tmp ∈ _processed_dirs (before_sweep (seconds 0) w e).1 ∧
  files (cleanup_in_order [tmp] (before_sweep (seconds 0) w e).1 (before_sweep (seconds 0) w e).2).2 !! tmp
  = files (before_sweep (seconds 0) w e).2 !! tmp.
Proof.
  intros w e. split; [compute_done|].
  apply (sweep_spares_watch_root (seconds 0) w e [tmp] tmp).
  - by apply (reachable_init (watch_settings tmp false 0 true true) unlink_source).
  - apply Forall_cons. split; [compute_done|apply Forall_nil_2].
  - reflexivity.
Defined.

(** The second test: the file dispatched at 0 is not dispatched at 1. *)
Lemma unchanged_not_redispatched_witness :
  let w := file_watcher 0 in
  let e := a_world one_file in
  let w1 := (run_once (seconds 0) w e).1.2 in
  let e1 := (run_once (seconds 0) w e).2 in
  ¬ invoked (seconds 1) (start w1 e1) show ∧
  ∃ ts, calls (run_once (seconds 1) w1 e1).2 = calls e1 ++ ts ∧
        (run_once (seconds 1) w1 e1).1.1 = length ts ∧
        Forall (λ t, source t ≠ show) ts.
Proof.
  intros w e w1 e1.
  apply (unchanged_not_redispatched (seconds 0) w e [] [] (seconds 1) e1 [] [] show show_state);
    vm_compute; reflexivity.
Defined.



(** The last test: with [cleanup_processed_source_dirs] alone the sweep
    does nothing. *)
Lemma recursive_cleanup_needs_both_flags_witness :
  let s := watch_settings drop true 0 false true in
  let w := watching s unlink_source in
  let e := (before_sweep (seconds 0) w (a_world full_release)).2 in
  cleanup_processed_source_dirs w = false ∧
  cleanup_in_order [release] w e = (w, e).
Proof.
  intros s w e.
  assert (same_config w w) as Hconf by done.
  destruct (recursive_cleanup_needs_both_flags s unlink_source w w e [release]
              eq_refl Hconf) as (Hflag & _ & Hoff).
  split; [exact Hflag|]. apply Hoff. reflexivity.
Defined.

(** A pending file that disappears is forgotten by the next cycle. *)
Lemma undiscovered_untracked_witness :
  let w := (run_once (seconds 0) (file_watcher 10) (a_world one_file)).1.2 in
  let e := a_world (list_to_map [(tmp, a_dir)]) in
  _pending w !! show = Some (show_state, seconds 0) ∧
  (show ∉ _iter_files w (files e)) ∧
  _pending (run_once (seconds 5) w e).1.2 !! show = None ∧
  _attempted (run_once (seconds 5) w e).1.2 !! show = None.
Proof.
  intros w e. split; [vm_compute; reflexivity|].
  assert (show ∉ _iter_files w (files e)) as Hgone by compute_done.
  split; [exact Hgone|]. exact (undiscovered_untracked (seconds 5) w e show Hgone).
Defined.

(** The file is moved away by the callback: when [run_once] returns it is
    attempted and no longer pending, its directory was a candidate when the
    sweep began, and a callback that returns [False] makes no difference. *)
Lemma dispatch_bookkeeping_witness :
  let w := watching (watch_settings tmp false 0 true false) unlink_source in
  let e := a_world one_file in
  let r := run_once (seconds 0) w e in
  invoked (seconds 0) (start w e) show ∧
  _attempted r.1.2 !! show = Some show_state ∧
  _pending r.1.2 !! show = None ∧
  processed (visit (seconds 0) (start w e) show) = 1%nat ∧
  tmp ∈ _processed_dirs (before_sweep (seconds 0) w e).1 ∧
  run_once (seconds 0) (answering false w) e = (r.1.1, answering false r.1.2, r.2).
Proof.
  intros w e r.
  assert (_iter_files w (files e) = [] ++ show :: []) as Hfiles
    by (vm_compute; reflexivity).
  assert (stat (files (world (run_loop (seconds 0) [] (start w e)))) show
          = Returns show_state) as Hstat by (vm_compute; reflexivity).
  assert (invoked (seconds 0) (run_loop (seconds 0) [] (start w e)) show) as Hcall
    by (vm_compute; reflexivity).
  assert (path_exists
            (files (world (visit (seconds 0) (run_loop (seconds 0) [] (start w e)) show)))
            show = false) as Hgone by (vm_compute; reflexivity).
  destruct (dispatch_bookkeeping (seconds 0) w e [] show [] show_state Hfiles Hstat Hcall)
    as ((Ha & Hp & _) & (_ & _ & Hn & _ & _ & Hc) & Hanswer).
  exact (conj Hcall (conj Ha (conj Hp (conj Hn (conj (Hc Hgone) (Hanswer false)))))).
Defined.

(** After a first cycle the file is pending and has not been attempted. *)
Lemma never_pending_and_attempted_witness :
  let w := (run_once (seconds 0) (file_watcher 10) (a_world one_file)).1.2 in
  _pending w !! show = Some (show_state, seconds 0) ∧ pending_unattempted w.
Proof.
  intros w. split; [vm_compute; reflexivity|].
  refine (proj1 (never_pending_and_attempted w _)). apply reachable_run_once.
  by apply (reachable_init (watch_settings tmp false 10 false false) accept).
Defined.

(** ** Two files of which the first dispatch removes both *)

(** Both files are pending since 0; at 10 the dispatch of [b.mkv] removes
    [a.mkv] too, whose pending entry stays as it was. *)
Lemma stat_error_keeps_tracking_witness :
  let w := both_watcher in
  let e := a_world two_files in
  let a := entry tmp "a.mkv" in
  let b := entry tmp "b.mkv" in
  _iter_files w (files e) = [b; a] ∧
  stat (files (world (run_loop (seconds 10) [b] (start w e)))) a = OSError ∧
  _pending (run_once (seconds 10) w e).1.2 !! a = Some (FileState.mk 4 100, seconds 0) ∧
  _attempted (run_once (seconds 10) w e).1.2 !! a = None.
Proof.
  intros w e a b.
  assert (_iter_files w (files e) = [b] ++ a :: []) as Hfiles
    by (vm_compute; reflexivity).
  assert (stat (files (world (run_loop (seconds 10) [b] (start w e)))) a = OSError) as Hstat
    by (vm_compute; reflexivity).
  destruct (stat_error_keeps_tracking (seconds 10) w e [b] a [] Hfiles Hstat)
    as (_ & Hp & Ha).
  split; [exact Hfiles|]. split; [exact Hstat|]. split.
  - etrans; [exact Hp|]. vm_compute. reflexivity.
  - etrans; [exact Ha|]. vm_compute. reflexivity.
Defined.

(** ** Instances of the further properties *)

(** The watcher of the third test after its first cycle. *)
Lemma reachable_configuration_witness :
  let w := (run_once (seconds 0) (file_watcher 10) (a_world one_file)).1.2 in
  SettingStore.watch_input_directory (settings w) = Some (watch_directory w) ∧
  (1 ≤ poll_interval w)%Z ∧ (0 ≤ settle_seconds w)%Z.
Proof.
  intros w.
  assert (reachable w) as Hreach.
  { apply reachable_run_once.
    exact (reachable_init (watch_settings tmp false 10 false false) accept
             (file_watcher 10) eq_refl). }
  destruct (reachable_configuration w Hreach) as (Hdir & Hpoll & Hsettle & _).
  exact (conj Hdir (conj Hpoll Hsettle)).
Defined.

(** A file pending since the reading 0.1 is dispatched at 10.1 by a watcher
    that settles for 10 seconds: the float [10.1 - 0.1] is 10.0. *)
Lemma invoked_iff_witness :
  let w := (run_once a_tenth (file_watcher 10) (a_world one_file)).1.2 in
  _pending w !! show = Some (show_state, a_tenth) ∧
  invoked ten_and_a_tenth (start w (a_world one_file)) show.
Proof.
  intros w.
  assert (_pending w !! show = Some (show_state, a_tenth)) as Hpen
    by (vm_compute; reflexivity).
  refine (conj Hpen _).
  apply (proj2 (invoked_iff ten_and_a_tenth (start w (a_world one_file)) show)).
  exists show_state. refine (conj _ (conj _ _)).
  - vm_compute. reflexivity.
  - compute_done.
  - vm_compute; reflexivity.
Defined.

(** With the settle duration 10 the first visit of the file changes
    nothing but its pending entry. *)
Lemma visit_without_dispatch_witness :
  let c := start (file_watcher 10) (a_world one_file) in
  ¬ invoked (seconds 0) c show ∧
  world (visit (seconds 0) c show) = world c ∧
  _attempted (self (visit (seconds 0) c show)) = _attempted (self c).
Proof.
  intros c.
  assert (¬ invoked (seconds 0) c show) as Hnot
    by (intros Hcall; vm_compute in Hcall; discriminate Hcall).
  destruct (visit_without_dispatch (seconds 0) c show Hnot) as (Hworld & _ & Hatt & _).
  exact (conj Hnot (conj Hworld Hatt)).
Defined.

(** The file is pending since 0 and is found grown at 5: it is pending
    since 5. *)
Lemma changed_file_settles_anew_witness :
  let w := (run_once (seconds 0) (file_watcher 10) (a_world one_file)).1.2 in
  let e := a_world growing_file in
  _pending w !! show = Some (show_state, seconds 0) ∧
  ¬ invoked (seconds 5) (start w e) show ∧
  _pending (run_once (seconds 5) w e).1.2 !! show = Some (FileState.mk 8 200, seconds 5).
Proof.
  intros w e.
  assert (_pending w !! show = Some (show_state, seconds 0)) as Hpen
    by (vm_compute; reflexivity).
  refine (conj Hpen _).
  apply (changed_file_settles_anew (seconds 5) w e [] show [] (FileState.mk 8 200)
           show_state (seconds 0)).
  - vm_compute. reflexivity.
  - vm_compute. reflexivity.
  - exact Hpen.
  - vm_compute. discriminate.
  - compute_done.
  - vm_compute. reflexivity.
Defined.

(** The file is dispatched at 0, gone at 1 and back at 2, in the same
    state: it is dispatched again. *)
Lemma returning_file_is_new_witness :
  let w := (run_once (seconds 0) (file_watcher 0) (a_world one_file)).1.2 in
  let w1 := (run_once (seconds 1) w (a_world no_file)).1.2 in
  _attempted w !! show = Some show_state ∧
  invoked (seconds 2) (start w1 (a_world one_file)) show.
Proof.
  intros w w1. refine (conj _ _); [vm_compute; reflexivity|].
  assert (show ∉ _iter_files w (files (a_world no_file))) as Hgone
    by compute_done.
  assert (_iter_files w1 (files (a_world one_file)) = [] ++ show :: []) as Hfiles
    by (vm_compute; reflexivity).
  assert (stat (files (world (run_loop (seconds 2) [] (start w1 (a_world one_file))))) show
          = Returns show_state) as Hstat by (vm_compute; reflexivity).
  assert (settle_seconds w = 0%Z) as Hzero by (vm_compute; reflexivity).
  destruct (returning_file_is_new (seconds 1) w (a_world no_file) (seconds 2) (a_world one_file)
              [] show [] show_state Hgone Hfiles Hstat) as [_ Hcall].
  exact (Hcall Hzero).
Defined.

(** The notes of [extras] are removed from below the candidate [extras]. *)
Lemma cleanup_removes_below_candidates_witness :
  let w := kept_sweep.1 in
  let e := kept_sweep.2 in
  let q := entry extras "show.s01e02.nfo" in
  files (cleanup_in_order [release; extras] w e).2 !! q = None ∧
  ∃ d, d ∈ [release; extras] ∧ d `prefix_of` q ∧
       resolve d ≠ resolve (watch_directory w).
Proof.
  intros w e q. apply cleanup_removes_below_candidates.
  vm_compute. discriminate.
Defined.

(** In the first cycle of [kept_watcher] the notes of [extras] are removed,
    from inside the watch directory. *)
Lemma run_once_removes_in_watch_witness :
  let e := a_world kept_release in
  let q := entry extras "show.s01e02.nfo" in
  files (run_once (seconds 0) kept_watcher e).2 !! q = None ∧
  is_below (watch_directory kept_watcher) q.
Proof.
  intros e q. apply run_once_removes_in_watch.
  - exact (reachable_init (watch_settings drop true 0 true true)
             unlink_unless_kept kept_watcher eq_refl).
  - vm_compute. discriminate.
Defined.

(** The step of the sweep on [extras] removes it with its notes. *)
Lemma sweep_removes_tree_witness :
  let w := kept_sweep.1 in
  let e := kept_sweep.2 in
  files (sweep drop (w, e) extras).2 !! entry extras "show.s01e02.nfo" = None ∧
  files (sweep drop (w, e) extras).2 !! entry release "keep.mkv"
  = Some (a_file 4 100) ∧
  notices (sweep drop (w, e) extras).2 = notices e ++ [DeletedProcessed extras].
Proof.
  intros w e.
  assert (cleanup_processed_source_dirs w = true) as Hflag
    by (vm_compute; reflexivity).
  assert (is_dir (files e) extras = true) as Hdir by (vm_compute; reflexivity).
  assert (resolve extras ≠ drop) as Hne by (vm_compute; discriminate).
  assert (_has_masked_files w (files e) extras = false) as Hm
    by (vm_compute; reflexivity).
  destruct (sweep_removes_tree drop w e extras Hflag Hdir Hne Hm)
    as (Hfiles & _ & Hnotices & _).
  refine (conj _ (conj _ Hnotices)).
  - etrans; [apply Hfiles|]. vm_compute. reflexivity.
  - etrans; [apply Hfiles|]. vm_compute. reflexivity.
Defined.

(** The fourth test: the release directory is empty after the move. *)
Lemma sweep_removes_empty_directory_witness :
  let w := (before_sweep (seconds 0)
              (watching (watch_settings drop true 0 true false) unlink_source)
              (a_world one_release)).1 in
  let e := (before_sweep (seconds 0)
              (watching (watch_settings drop true 0 true false) unlink_source)
              (a_world one_release)).2 in
  files (sweep drop (w, e) release).2 = delete release (files e) ∧
  notices (sweep drop (w, e) release).2 = notices e ++ [DeletedEmpty release].
Proof.
  intros w e.
  assert (cleanup_processed_source_dirs w = false) as Hflag
    by (vm_compute; reflexivity).
  assert (cleanup_empty_source_dirs w = true) as Hempty
    by (vm_compute; reflexivity).
  assert (is_dir (files e) release = true) as Hdir by (vm_compute; reflexivity).
  assert (resolve release ≠ drop) as Hne by (vm_compute; discriminate).
  assert (_has_masked_files w (files e) release = false) as Hm
    by (vm_compute; reflexivity).
  assert (iterdir (files e) release = Returns []) as Hit
    by (vm_compute; reflexivity).
  destruct (sweep_removes_empty_directory drop w e release Hflag Hempty Hdir Hne Hm)
    as (_ & Hnone & _).
  apply Hnone. exact (proj2 (proj1 (iterdir_nil (files e) release) Hit)).
Defined.

(** A watcher without clean-up keeps [tmp] as a candidate. *)
Lemma disabled_cleanup_accumulates_witness :
  let w := watching (watch_settings tmp false 0 false false) unlink_source in
  let e := a_world one_file in
  files (run_once (seconds 0) w e).2 = no_file ∧
  _processed_dirs (run_once (seconds 0) w e).1.2 = {[tmp]}.
Proof.
  intros w e.
  destruct (disabled_cleanup_accumulates (seconds 0) w e eq_refl eq_refl)
    as (Hworld & Hdirs & _).
  refine (conj _ _).
  - etrans; [exact (f_equal files Hworld)|]. vm_compute. reflexivity.
  - etrans; [exact Hdirs|]. vm_compute. reflexivity.
Defined.

(** The second test: the second call changes nothing. *)
Lemma quiet_cycle_witness :
  let w := (run_once (seconds 0) (file_watcher 0) (a_world one_file)).1.2 in
  let e := (run_once (seconds 0) (file_watcher 0) (a_world one_file)).2 in
  run_once (seconds 1) w e = (O, w, e).
Proof.
  intros w e.
  assert (_iter_files w (files e) = [show]) as Hfiles by (vm_compute; reflexivity).
  assert (map_to_list (_pending w) = []) as Hpen by (vm_compute; reflexivity).
  assert (map_to_list (_attempted w) = [(show, show_state)]) as Hatt
    by (vm_compute; reflexivity).
  assert (stat (files e) show = Returns show_state) as Hstat
    by (vm_compute; reflexivity).
  assert (_attempted w !! show = Some show_state) as Hshow
    by (vm_compute; reflexivity).
  assert (_processed_dirs w = ∅) as Hdirs by (vm_compute; reflexivity).
  apply quiet_cycle; [| |exact Hdirs].
  - intros p Hp. rw Hfiles in Hp. apply list_elem_of_singleton in Hp.
    subst p. exists show_state. exact (conj Hstat Hshow).
  - intros p [[x Hx]|[x Hx]]; apply elem_of_map_to_list in Hx.
    + rw Hpen in Hx. destruct (not_elem_of_nil _ Hx).
    + rw Hatt in Hx. apply list_elem_of_singleton in Hx.
      injection Hx as -> _. rw Hfiles. apply list_elem_of_singleton. reflexivity.
Defined.

(** [tmp] is a candidate because the file in it has been dispatched. *)
Lemma candidates_from_dispatch_witness :
  let w := watching (watch_settings tmp false 0 true false) unlink_source in
  let e := a_world one_file in
  ∃ p, p ∈ _iter_files w (files e) ∧ tmp = parent p ∧
       target_of w p ∈ calls (world (after_loop (seconds 0) w e)).
Proof.
  intros w e.
  assert (tmp ∈ _processed_dirs (self (after_loop (seconds 0) w e))) as Hin by compute_done.
  assert (tmp ∉ _processed_dirs w) as Hout by compute_done.
  destruct (candidates_from_dispatch (seconds 0) w e tmp Hin) as [Hold|Hnew].
  - destruct (Hout Hold).
  - exact Hnew.
Defined.
